(** * data_tools: a shallow embedding of [wrap.py] and [io.py]

    The development follows the two source files of the repository.

    - [Py]   : the fragment of Python's dynamic semantics the code relies on
               (exceptions, list indexing with negative indices, [range]).
    - [Np]   : the fragment of numpy the code calls ([np.zeros], [np.shape],
               row assignment with broadcasting, [nonzero]).
    - [Wrap] : [wrap.multi_source_array].
    - [Io]   : [io.buffered_array_writer], [io.bcolz_array_writer] and the
               streaming protocol of [io.data_flow]. *)

From stdpp Require Import base list numbers strings.
From Stdlib Require Import ZArith Lia.

Local Open Scope Z_scope.
Local Open Scope nat_scope.

(* ================================================================== *)
(** * Python                                                            *)
(* ================================================================== *)

Module Py.

(** The exception classes raised by the modelled code. *)
Inductive exn : Set :=
| IndexError | ValueError | TypeError | NameError | UnboundLocalError
| EOFError | AssertionError | ZeroDivisionError | AttributeError.

#[global] Instance exn_eq_dec : EqDecision exn.
Proof. solve_decision. Defined.

(** A call either returns a value or raises. *)
Inductive result (A : Type) : Type :=
| Ok (a : A)
| Raise (e : exn).
Arguments Ok {A} a.
Arguments Raise {A} e.

#[global] Instance result_ret : MRet result := fun _ a => Ok a.
#[global] Instance result_bind : MBind result := fun _ _ f m =>
  match m with Ok a => f a | Raise e => Raise e end.
#[global] Instance result_fmap : FMap result := fun _ _ f m =>
  match m with Ok a => Ok (f a) | Raise e => Raise e end.

Definition is_ok {A} (r : result A) : bool :=
  match r with Ok _ => true | Raise _ => false end.

(** [for x in xs: f(x)], stopping at the first exception. *)
Fixpoint for_each {A B} (f : A -> result B) (xs : list A) : result (list B) :=
  match xs with
  | [] => Ok []
  | x :: xs' => y ← f x; ys ← for_each f xs'; Ok (y :: ys)
  end.

(** [l[i]] on a Python list: a negative index counts from the end, an index
    outside [-len(l), len(l)) raises [IndexError]. *)
Definition list_index {A} (l : list A) (i : Z) : result A :=
  let n := Z.of_nat (length l) in
  let j := if (i <? 0)%Z then (i + n)%Z else i in
  if ((0 <=? j) && (j <? n))%Z
  then match l !! Z.to_nat j with Some x => Ok x | None => Raise IndexError end
  else Raise IndexError.

(** [l[i]] for a loop counter [i] (never negative). *)
Definition list_get {A} (l : list A) (i : nat) : result A :=
  match l !! i with Some x => Ok x | None => Raise IndexError end.

(** [len(range(start, stop, step))] for [step <> 0]. *)
Definition range_len (start stop step : Z) : nat :=
  if (0 <? step)%Z then Z.to_nat ((stop - start + step - 1) / step)
  else Z.to_nat ((start - stop - step - 1) / (- step)).

(** [range(start, stop, step)]; a zero step raises [ValueError]. *)
Definition range (start stop step : Z) : result (list Z) :=
  if (step =? 0)%Z then Raise ValueError
  else Ok ((fun k : nat => (start + Z.of_nat k * step)%Z)
             <$> seq 0 (range_len start stop step)).

End Py.
Export Py.

(* ================================================================== *)
(** * numpy                                                             *)
(* ================================================================== *)

Module Np.

Inductive DType : Set := dt_bool | dt_int64 | dt_float32 | dt_float64.

#[global] Instance DType_eq_dec : EqDecision DType.
Proof. solve_decision. Defined.

(** An array is its element type, its shape and its cells in row-major
    order; a numpy scalar is an array of shape [()].  Cell payloads are
    integers. *)
Record ndarray : Set := NDArray {
  nd_dtype : DType;
  nd_shape : list nat;
  nd_data : list Z
}.

#[global] Instance ndarray_eq_dec : EqDecision ndarray.
Proof. solve_decision. Defined.

Definition prod_list (sh : list nat) : nat := foldr Nat.mul 1 sh.

Definition wf_array (a : ndarray) : Prop :=
  length (nd_data a) = prod_list (nd_shape a).

(** Storing a payload into a cell of the given element type. *)
Definition astype (dt : DType) (v : Z) : Z :=
  match dt with
  | dt_bool => if (v =? 0)%Z then 0%Z else 1%Z
  | _ => v
  end.

(** [np.zeros(shape, dtype)] *)
Definition zeros (sh : list nat) (dt : DType) : ndarray :=
  NDArray dt sh (replicate (prod_list sh) 0%Z).

(** The [n] consecutive chunks of [sz] cells of a row-major buffer. *)
Definition chunks (sz n : nat) (data : list Z) : list (list Z) :=
  (fun k => take sz (drop (k * sz) data)) <$> seq 0 n.

(** Broadcasting of a value of shape [sshape] to [tshape], both of the
    same rank: an axis of extent 1 is repeated, any other mismatch is a
    [ValueError]. *)
Fixpoint bcast (sshape tshape : list nat) (data : list Z) : result (list Z) :=
  match sshape, tshape with
  | [], [] => Ok data
  | s :: ss, t :: ts =>
      if decide (s = t) then
        rows ← for_each (bcast ss ts) (chunks (prod_list ss) s data);
        Ok (concat rows)
      else if decide (s = 1) then
        row ← bcast ss ts data;
        Ok (concat (replicate t row))
      else Raise ValueError
  | _, _ => Raise ValueError
  end.

(** Leading axes of extent 1 in excess of the target rank are dropped. *)
Fixpoint strip_ones (extra : nat) (sh : list nat) : option (list nat) :=
  match extra, sh with
  | O, _ => Some sh
  | S e, 1 :: sh' => strip_ones e sh'
  | S _, _ => None
  end.

(** The value of shape [sshape] as it is written into a target of shape
    [tshape] by an assignment. *)
Definition broadcast_to (sshape : list nat) (data : list Z) (tshape : list nat)
  : result (list Z) :=
  match strip_ones (length sshape - length tshape) sshape with
  | Some sh =>
      bcast (replicate (length tshape - length sh) 1 ++ sh) tshape data
  | None => Raise ValueError
  end.

(** [a[i] = v] for an integer [i] in range. *)
Definition set_row (a : ndarray) (i : nat) (v : ndarray) : result ndarray :=
  match nd_shape a with
  | [] => Raise IndexError
  | n :: rowshape =>
      if decide (i < n) then
        row ← broadcast_to (nd_shape v) (nd_data v) rowshape;
        let sz := prod_list rowshape in
        Ok (NDArray (nd_dtype a) (nd_shape a)
              (take (i * sz) (nd_data a) ++ (astype (nd_dtype a) <$> row)
                 ++ drop ((i + 1) * sz) (nd_data a)))
      else Raise IndexError
  end.

(** Longest common prefix of two shapes. *)
Fixpoint lcp (s1 s2 : list nat) : list nat :=
  match s1, s2 with
  | a :: s1', b :: s2' => if decide (a = b) then a :: lcp s1' s2' else []
  | _, _ => []
  end.

Definition lcp_all (shapes : list (list nat)) : list nat :=
  match shapes with
  | [] => []
  | s :: rest => foldl lcp s rest
  end.

(** Positions of the non-zero cells of a row-major buffer. *)
Fixpoint nonzero_from (p : nat) (data : list Z) : list nat :=
  match data with
  | [] => []
  | v :: data' =>
      if (v =? 0)%Z then nonzero_from (S p) data'
      else p :: nonzero_from (S p) data'
  end.

(** Coordinate along each axis of the cell at flat position [p]. *)
Fixpoint unravel (sh : list nat) (p : nat) : list nat :=
  match sh with
  | [] => []
  | _ :: sh' => (p / prod_list sh') :: unravel sh' (p mod prod_list sh')
  end.

End Np.
Export Np.

(* ================================================================== *)
(** * wrap.py: indexing keys and data sources                           *)
(* ================================================================== *)

(** The objects [multi_source_array.__getitem__] tells apart. *)
#[warnings="-register-all"]
Inductive key : Set :=
| KInt (i : Z)                                  (* int, np.integer *)
| KSlice (start stop step : option Z)           (* slice(start, stop, step) *)
| KEllipsis                                     (* Ellipsis *)
| KOpaque                                       (* None, a float, np.bool_:
                                                   no __len__, not an integer *)
| KList (ks : list key)                         (* list *)
| KTuple (ks : list key)                        (* tuple *)
| KArray (dt : DType) (sh : list nat) (data : list Z).   (* np.ndarray *)

(** [hasattr(k, '__len__')] *)
Definition has_len (k : key) : bool :=
  match k with
  | KList _ | KTuple _ | KArray _ _ _ => true
  | _ => false
  end.

Definition is_tuple (k : key) : bool :=
  match k with KTuple _ => true | _ => false end.

Definition is_list_or_tuple (k : key) : bool :=
  match k with KList _ | KTuple _ => true | _ => false end.

(** [np.shape(k)]: nested sequences are arrays as deep as their lengths
    agree. *)
Fixpoint np_shape (k : key) : list nat :=
  match k with
  | KList ks | KTuple ks => length ks :: lcp_all (map np_shape ks)
  | KArray _ sh _ => sh
  | _ => []
  end.

(** [np.size(k)] *)
Definition np_size (k : key) : nat := prod_list (np_shape k).

(** The items of an array along its first axis: numpy scalars for a
    one-dimensional array, sub-arrays otherwise.  A 0-d array cannot be
    iterated. *)
Definition array_items (dt : DType) (sh : list nat) (data : list Z)
  : result (list key) :=
  match sh with
  | [] => Raise TypeError
  | n :: [] =>
      Ok ((fun v => match dt with dt_int64 => KInt v | _ => KOpaque end)
            <$> take n data)
  | n :: rest => Ok (KArray dt rest <$> chunks (prod_list rest) n data)
  end.

(** [list(k)] for a sized key, as done by [for x in k] and [enumerate(k)]. *)
Definition key_items (k : key) : result (list key) :=
  match k with
  | KList ks | KTuple ks => Ok ks
  | KArray dt sh data => array_items dt sh data
  | _ => Raise TypeError
  end.

(** [len(k)] *)
Definition py_len (k : key) : result nat :=
  match k with
  | KList ks | KTuple ks => Ok (length ks)
  | KArray _ (n :: _) _ => Ok n
  | _ => Raise TypeError
  end.

(** [k[i]] for a loop counter [i]. *)
Definition key_get (k : key) (i : nat) : result key :=
  items ← key_items k; list_get items i.

(** [key.nonzero()] for a boolean array: one index array per axis. *)
Definition nonzero (sh : list nat) (data : list Z) : list key :=
  let ps := nonzero_from 0 (take (prod_list sh) data) in
  (fun axis =>
     KArray dt_int64 [length ps]
       ((fun p => Z.of_nat (nth axis (unravel sh p) 0)) <$> ps))
    <$> seq 0 (length sh).

(** A data source: anything with [len()], [.shape], [.dtype] and
    [__getitem__].  The key handed to [src_getitem] is the object the
    composite passes between the brackets. *)
Record Source : Type := {
  src_len : nat;
  src_shape : list nat;
  src_dtype : DType;
  src_getitem : key -> result ndarray
}.

(** What an indexing operation of the composite returns. *)
Inductive pyval : Set :=
| PNone
| PArr (a : ndarray).

(* ================================================================== *)
(** * wrap.py: class multi_source_array                                 *)
(* ================================================================== *)

Module multi_source_array.

Record t : Type := {
  source_list : list Source;
  class_list : option (list Z);
  shuffle : bool;
  num_items : nat;
  dtype : DType;
  shape : list nat;
  ndim : nat;
  index_pairs : list (nat * nat)
}.

(** The pairs [(i, j)] for source [i] and [j in range(len(source))]. *)
Fixpoint enumerate_pairs (i : nat) (sources : list Source) : list (nat * nat) :=
  match sources with
  | [] => []
  | s :: rest => (pair i <$> seq 0 (src_len s)) ++ enumerate_pairs (S i) rest
  end.

Definition check_source (sh : list nat) (dt : DType) (s : Source) : result unit :=
  if decide (tail (src_shape s) ≠ tail sh) then Raise ValueError
  else if decide (src_dtype s ≠ dt) then Raise TypeError
  else Ok ().

Section construction.
(** [np.random.shuffle], applied in place to the list of index pairs. *)
Variable rng : list (nat * nat) -> list (nat * nat).

Definition __init__ (sources : list Source) (classes : option (list Z))
    (shuf : bool) : result t :=
  let n := sum_list (src_len <$> sources) in
  s0 ← list_get sources 0;
  let dt := src_dtype s0 in
  let sh := n :: tail (src_shape s0) in
  _ ← for_each (check_source sh dt) sources;
  let pairs := enumerate_pairs 0 sources in
  Ok {| source_list := sources; class_list := classes; shuffle := shuf;
        num_items := n; dtype := dt; shape := sh; ndim := length sh;
        index_pairs := if shuf then rng pairs else pairs |}.
End construction.

Definition __len__ (self : t) : nat := num_items self.


(** The read [self.source_list[source_num][idx]] of lines 67 and 75. *)
Definition read_pair (self : t) (p : nat * nat) : result ndarray :=
  src ← list_get (source_list self) (fst p);
  src_getitem src (KInt (Z.of_nat (snd p))).

(** [__iter__]: the elements the generator yields and, when a read raises,
    the exception that ends it. *)
Fixpoint iter_pairs (self : t) (pairs : list (nat * nat))
  : list ndarray * option exn :=
  match pairs with
  | [] => ([], None)
  | p :: rest =>
      match read_pair self p with
      | Ok a => let '(ys, e) := iter_pairs self rest in (a :: ys, e)
      | Raise e => ([], Some e)
      end
  end.

Definition __iter__ (self : t) : list ndarray * option exn :=
  iter_pairs self (index_pairs self).

Definition _get_element (self : t) (int_key : key)
    (key_remainder : option (list key)) : result ndarray :=
  match int_key with
  | KInt i =>
      p ← list_index (index_pairs self) i;
      let idx := match key_remainder with
                 | Some rem => KTuple (KInt (Z.of_nat (snd p)) :: rem)
                 | None => KInt (Z.of_nat (snd p))
                 end in
      src ← list_get (source_list self) (fst p);
      src_getitem src idx
  | _ => Raise IndexError
  end.

(** The [key_remainder] handed to row [i] of a block (lines 82-91). *)
Definition row_key_remainder (values_is_seq : bool)
    (key_remainder : option (list key)) (i : nat) : result (option (list key)) :=
  match key_remainder with
  | Some rem =>
      if values_is_seq then
        Some <$> for_each (fun k =>
                   if has_len k then
                     n ← py_len k;
                     if decide (n = np_size k) then key_get k i else Ok k
                   else Ok k) rem
      else Ok (Some rem)
  | None => Ok None
  end.

(** Lines 95-98: the buffer is allocated when the first element is at
    hand, then row [i] is assigned. *)
Definition place_row (dt : DType) (n i : nat) (elem : ndarray)
    (item_block : option ndarray) : result ndarray :=
  set_row (match item_block with
           | None => zeros (n :: nd_shape elem) dt
           | Some b => b
           end) i elem.

(** The loop of [_get_block]: [n] is [len(values)], [i] the counter of
    [enumerate], [item_block] the buffer built so far. *)
Fixpoint get_block_loop (self : t) (values_is_seq : bool)
    (key_remainder : option (list key)) (n i : nat) (values : list key)
    (item_block : option ndarray) : result (option ndarray) :=
  match values with
  | [] => Ok item_block
  | v :: values' =>
      v_key_remainder ← row_key_remainder values_is_seq key_remainder i;
      elem ← _get_element self v v_key_remainder;
      block' ← place_row (dtype self) n i elem item_block;
      get_block_loop self values_is_seq key_remainder n (S i) values'
        (Some block')
  end.

Definition to_pyval (o : option ndarray) : pyval :=
  match o with None => PNone | Some a => PArr a end.

(** [_get_block]: [values] is given by its items and by whether it is a
    list or a tuple (a [range] and an array are neither). *)
Definition _get_block (self : t) (values_is_seq : bool) (values : list key)
    (key_remainder : option (list key)) : result pyval :=
  to_pyval <$> get_block_loop self values_is_seq key_remainder
                 (length values) 0 values None.

(** The block [_get_block] builds out of elements already read. *)
Fixpoint stack_from (dt : DType) (n i : nat) (elems : list ndarray)
    (item_block : option ndarray) : result (option ndarray) :=
  match elems with
  | [] => Ok item_block
  | elem :: elems' =>
      block' ← place_row dt n i elem item_block;
      stack_from dt n (S i) elems' (Some block')
  end.

Definition stack (dt : DType) (elems : list ndarray) : result pyval :=
  to_pyval <$> stack_from dt (length elems) 0 elems None.

(** Lines 119-122: the shapes of the components that have a length. *)
Definition key_shapes (items : list key) : list (list nat) :=
  np_shape <$> filter (fun k => has_len k = true) items.

(** Lines 106-139: the key of the first axis and the remainder. *)
Definition split_key (self : t) (key0 : key) : result (key * option (list key)) :=
  if has_len key0 then
    key1 ← match key0 with
           | KArray dt sh data =>
               if decide (dt = dt_bool) then
                 if decide (length sh ≠ ndim self) then Raise IndexError
                 else Ok (KTuple (nonzero sh data))
               else if decide (1 < length sh) then Raise IndexError
               else Ok key0
           | _ => Ok key0
           end;
    items ← key_items key1;
    let shapes := key_shapes items in
    if decide (Forall (fun s => Some s = head shapes) shapes) then
      if decide (ndim self < length shapes) then Raise IndexError
      else if (negb (length shapes =? 0)) || is_tuple key1 then
        k ← list_get items 0;
        Ok (k, Some (tail items))
      else Ok (key1, None)
    else Raise IndexError
  else Ok (key0, None).

Definition __getitem__ (self : t) (key0 : key) : result pyval :=
  kr ← split_key self key0;
  let '(k, key_remainder) :=
    match kr with
    | (KEllipsis, rem) =>
        (KSlice (Some 0%Z) (Some (Z.of_nat (num_items self))) None,
         match rem with
         | Some r => if decide (length r < ndim self - 1)
                     then Some (KEllipsis :: r) else Some r
         | None => None
         end)
    | _ => kr
    end in
  match k with
  | KInt _ => PArr <$> _get_element self k key_remainder
  | KSlice start stop step =>
      let start := default 0%Z start in
      let stop := default (Z.of_nat (num_items self)) stop in
      let step := default 1%Z step in
      r ← range start stop step;
      _get_block self false (KInt <$> r) key_remainder
  | KList _ | KTuple _ | KArray _ _ _ =>
      values ← key_items k;
      _get_block self (is_list_or_tuple k) values key_remainder
  | _ => Raise IndexError
  end.

End multi_source_array.

(* ================================================================== *)
(** * io.py: class buffered_array_writer                                *)
(* ================================================================== *)

(** The array a writer stores into (a numpy array, an HDF5 dataset, ...):
    [len(a)] and the slice assignment [a[lo:hi] = rows]. *)
Class StorageArray (S : Type) : Type := {
  sa_len : S -> nat;
  sa_setslice : S -> nat -> nat -> ndarray -> result S
}.

(** A numpy array as storage: the slice is clipped to the array and the
    rows are broadcast into it. *)
#[global] Instance ndarray_storage : StorageArray ndarray := {|
  sa_len a := hd 0 (nd_shape a);
  sa_setslice a lo hi rows :=
    match nd_shape a with
    | [] => Raise IndexError
    | n :: rowshape =>
        let lo' := lo `min` n in
        let hi' := (hi `min` n) `max` lo' in
        let sz := prod_list rowshape in
        cells ← broadcast_to (nd_shape rows) (nd_data rows)
                  ((hi' - lo') :: rowshape);
        Ok (NDArray (nd_dtype a) (nd_shape a)
              (take (lo' * sz) (nd_data a) ++ (astype (nd_dtype a) <$> cells)
                 ++ drop (hi' * sz) (nd_data a)))
    end
|}.

Module buffered_array_writer.

Section writer.
Context {S : Type} `{StorageArray S}.

Record t : Type := mk {
  storage_array : S;
  data_element_shape : list nat;
  dtype : DType;
  batch_size : nat;
  length : option nat;
  buffer : ndarray;
  buffer_ptr : nat;
  storage_array_ptr : nat
}.

Definition __init__ (storage : S) (elem_shape : list nat) (dt : DType)
    (bs : nat) (len : option nat) : t :=
  {| storage_array := storage; data_element_shape := elem_shape;
     dtype := dt; batch_size := bs; length := len;
     buffer := zeros (bs :: elem_shape) dt;
     buffer_ptr := 0; storage_array_ptr := 0 |}.

(** A method mutates the object and returns or raises; the object is
    left as the statements executed before the exception made it. *)
Definition method (A : Type) : Type := t -> result A * t.

(** [a[:k]] *)
Definition rows_upto (a : ndarray) (k : nat) : ndarray :=
  match nd_shape a with
  | [] => a
  | n :: rowshape =>
      NDArray (nd_dtype a) ((k `min` n) :: rowshape)
        (take ((k `min` n) * prod_list rowshape) (nd_data a))
  end.

Definition flush_buffer : method unit := fun self =>
  if decide (0 < buffer_ptr self) then
    let end_ := storage_array_ptr self + buffer_ptr self in
    match sa_setslice (storage_array self) (storage_array_ptr self) end_
            (rows_upto (buffer self) (buffer_ptr self)) with
    | Ok storage' =>
        (Ok (),
         {| storage_array := storage';
            data_element_shape := data_element_shape self;
            dtype := dtype self; batch_size := batch_size self;
            length := length self; buffer := buffer self;
            buffer_ptr := 0;
            storage_array_ptr := storage_array_ptr self + buffer_ptr self |})
    | Raise e => (Raise e, self)
    end
  else (Ok (), self).

(** One iteration of the loop of lines 241-247. *)
Definition write_one (d : ndarray) : method unit := fun self =>
  match set_row (buffer self) (buffer_ptr self) d with
  | Ok buffer' =>
      let self' :=
        {| storage_array := storage_array self;
           data_element_shape := data_element_shape self;
           dtype := dtype self; batch_size := batch_size self;
           length := length self; buffer := buffer';
           buffer_ptr := buffer_ptr self + 1;
           storage_array_ptr := storage_array_ptr self |} in
      if decide (buffer_ptr self' = batch_size self') then flush_buffer self'
      else (Ok (), self')
  | Raise e => (Raise e, self)
  end.

Fixpoint write_all (ds : list ndarray) : method unit := fun self =>
  match ds with
  | [] => (Ok (), self)
  | d :: ds' =>
      match write_one d self with
      | (Ok _, self') => write_all ds' self'
      | (Raise e, self') => (Raise e, self')
      end
  end.

(** The rows of an array, as [for d in data] yields them. *)
Definition rows_of (a : ndarray) : result (list ndarray) :=
  match nd_shape a with
  | [] => Raise TypeError
  | n :: rowshape =>
      Ok (NDArray (nd_dtype a) rowshape
            <$> chunks (prod_list rowshape) n (nd_data a))
  end.

(** [data[1:].shape] *)
Definition shape_from_1 (a : ndarray) : result (list nat) :=
  match nd_shape a with
  | [] => Raise IndexError
  | n :: rowshape => Ok ((n - 1) :: rowshape)
  end.

(** Lines 224-227: [data_len] stays unbound when neither test holds. *)
Definition data_len (self : t) (data : ndarray) : result (option nat) :=
  if decide (nd_shape data = data_element_shape self) then Ok (Some 1)
  else
    sh ← shape_from_1 data;
    if decide (sh = data_element_shape self)
    then Ok (Some (hd 0 (nd_shape data)))
    else Ok None.

Definition buffered_write (data : ndarray) : method unit := fun self =>
  if decide (nd_shape data ≠ data_element_shape self
             ∧ tail (nd_shape data) ≠ data_element_shape self)
  then (Raise ValueError, self)
  else
    match data_len self data with
    | Raise e => (Raise e, self)
    | Ok dlen =>
        if decide (length self = Some (storage_array_ptr self))
        then (Raise EOFError, self)
        else if decide (nd_dtype data ≠ dtype self)
        then (Raise TypeError, self)
        else
          match dlen with
          | None => (Raise UnboundLocalError, self)
          | Some n =>
              match (if decide (n = 1) then Ok [data] else rows_of data) with
              | Raise e => (Raise e, self)
              | Ok ds =>
                  match write_all ds self with
                  | (Ok _, self') =>
                      if decide (length self'
                                 = Some (storage_array_ptr self'
                                         + buffer_ptr self'))
                      then flush_buffer self'
                      else (Ok (), self')
                  | (Raise e, self') => (Raise e, self')
                  end
              end
          end
    end.

Definition __len__ (self : t) : nat :=
  sa_len (storage_array self) + buffer_ptr self.

End writer.

Arguments t S : clear implicits.

End buffered_array_writer.

(* ================================================================== *)
(** * io.py: class bcolz_array_writer                                   *)
(* ================================================================== *)

Module bcolz_array_writer.

(** Names bound at module level in [io.py], the builtins it uses, and
    the parameters of [__init__]. *)
Definition module_globals : list string :=
  ["np"; "threading"; "multiprocessing"; "queue"; "h5py"; "bcolz";
   "data_flow"; "buffered_array_writer"; "h5py_array_writer";
   "bcolz_array_writer"]%string.

Definition builtins : list string :=
  ["object"; "super"; "print"; "len"; "range"; "EOFError"; "ValueError";
   "TypeError"; "KeyError"; "None"; "True"; "False"]%string.

Definition init_locals : list string :=
  ["self"; "data_element_shape"; "dtype"; "batch_size"; "save_path";
   "length"; "append"; "kwargs"]%string.

(** Reading a name inside [__init__]. *)
Definition load_name (name : string) : result unit :=
  if decide (name ∈ init_locals ++ module_globals ++ builtins)
  then Ok () else Raise NameError.

Section writer.
Context {S : Type} `{StorageArray S}.
(** [bcolz.zeros(shape=(0,)+data_element_shape, ..., rootdir=save_path,
    mode=write_mode, ...)] *)
Variable bcolz_zeros : list nat -> string -> bool -> result S.

Definition __init__ (data_element_shape : list nat) (dt : DType)
    (batch_size : nat) (save_path : string) (length : option nat)
    (append : bool) : result (buffered_array_writer.t (option S)) :=
  let self := buffered_array_writer.__init__ (S := option S)
                None data_element_shape dt batch_size length in
  _ ← load_name "save_pathsavepath";
  storage ← bcolz_zeros (0 :: data_element_shape) save_path append;
  Ok {| buffered_array_writer.storage_array := Some storage;
        buffered_array_writer.data_element_shape := data_element_shape;
        buffered_array_writer.dtype := dt;
        buffered_array_writer.batch_size := batch_size;
        buffered_array_writer.length := length;
        buffered_array_writer.buffer := buffered_array_writer.buffer self;
        buffered_array_writer.buffer_ptr := 0;
        buffered_array_writer.storage_array_ptr := 0 |}.
End writer.

End bcolz_array_writer.

(* ================================================================== *)
(** * io.py: class data_flow                                            *)
(* ================================================================== *)

Module data_flow.

(** [multiprocessing.JoinableQueue]: the queued items and the number of
    unfinished tasks ([put] increments it, [task_done] decrements it,
    [join] waits for zero). *)
Record JQueue (X : Type) : Type := {
  q_items : list X;
  q_unfinished : nat
}.
Arguments q_items {X} _.
Arguments q_unfinished {X} _.

Section queue.
Context {X : Type}.

Definition q_new : JQueue X := {| q_items := []; q_unfinished := 0 |}.

(** [put]: [None] while the queue is full (the caller blocks); a
    [maxsize] of zero means no bound. *)
Definition q_put (maxsize : nat) (x : X) (q : JQueue X) : option (JQueue X) :=
  if decide (maxsize = 0 ∨ length (q_items q) < maxsize)
  then Some {| q_items := q_items q ++ [x];
               q_unfinished := S (q_unfinished q) |}
  else None.

(** [get]: [None] while the queue is empty. *)
Definition q_get (q : JQueue X) : option (X * JQueue X) :=
  match q_items q with
  | [] => None
  | x :: rest => Some (x, {| q_items := rest;
                             q_unfinished := q_unfinished q |})
  end.

(** [task_done]: raises when called more often than [put]. *)
Definition q_task_done (q : JQueue X) : result (JQueue X) :=
  match q_unfinished q with
  | O => Raise ValueError
  | S n => Ok {| q_items := q_items q; q_unfinished := n |}
  end.

(** [join] returns once every item has been acknowledged. *)
Definition q_joined (q : JQueue X) : bool := q_unfinished q =? 0.

(** Nothing queued and nothing unacknowledged. *)
Definition q_settled (q : JQueue X) : Prop :=
  q_items q = [] ∧ q_unfinished q = 0.
End queue.

Section flow.
(** The elements of the sources ([d[i][...]]). *)
Context {A : Type}.
(** [np.random.permutation(n)] as drawn in the given epoch. *)
Variable rng : nat -> nat -> list nat.

(** One list of elements per source. *)
Definition Batch : Type := list (list A).

Record t : Type := {
  data : list (list A);
  batch_size : nat;
  nb_workers : nat;
  shuffle : bool;
  loop_forever : bool;
  num_batches : nat
}.

Definition __init__ (d : list (list A)) (bs nw : nat) (shuf lf : bool)
  : result t :=
  d0 ← list_get d 0;
  if decide (Forall (fun x => length x = length d0) d) then
    if decide (bs = 0) then Raise ZeroDivisionError
    else Ok {| data := d; batch_size := bs; nb_workers := nw;
               shuffle := shuf; loop_forever := lf;
               num_batches := length d0 / bs
                              + (if decide (0 < length d0 mod bs)
                                 then 1 else 0) |}
  else Raise AssertionError.

Definition __len__ (self : t) : result nat :=
  length <$> list_get (data self) 0.

Definition _process_batch (self : t) (batch : Batch) : option Batch :=
  Some batch.

(** Lines 133-137: the batch of chunk [b] of the index order. *)
Definition make_batch (self : t) (indices : list nat) (b : nat)
  : result Batch :=
  let bs := batch_size self in
  let batch_indices := take ((b + 1) * bs - b * bs) (drop (b * bs) indices) in
  for_each (fun d => for_each (fun i => list_get d i) batch_indices)
    (data self).

(** ** The three stages as control points *)

Inductive actor : Type := ALoader | AWorker (i : nat) | AConsumer.

(** [_preload_subroutine]; [e] counts the epochs. *)
Inductive loader_pc : Type :=
| LWhile (e : nat)                       (* while not stop.is_set() *)
| LFor (e : nat) (indices : list nat) (b : nat)   (* for b in range(...) *)
| LPut (e : nat) (indices : list nat) (b : nat) (batch : Batch)
                                         (* load_queue.put(batch) *)
| LDrain (e : nat)                       (* stop_on_empty.set() *)
| LJoinLoad (e : nat)                    (* load_queue.join() *)
| LJoinProc (e : nat)                    (* proc_queue.join() *)
| LPutNone (e : nat)                     (* proc_queue.put(None) *)
| LJoinProc2 (e : nat)                   (* proc_queue.join() *)
| LSetStop (e : nat)                     (* stop.set() *)
| LExit                                  (* returned *)
| LDead.                                 (* ended by an exception *)

(** [_process_subroutine] *)
Inductive worker_pc : Type :=
| WWhile                                 (* while not stop.is_set() *)
| WEval                                  (* not stop_on_empty.is_set() *)
| WGet (block : bool)                    (* load_queue.get(block=...) *)
| WPut (batch : Batch)                   (* proc_queue.put(...) *)
| WAck                                   (* load_queue.task_done() *)
| WJoinLoad                              (* except queue.Empty: join() *)
| WJoinProc                              (* proc_queue.join() *)
| WSetStop                               (* stop.set() *)
| WExit
| WDead.

(** The consumer loop of [flow] and its [finally] block. *)
Inductive consumer_pc : Type :=
| CWhile                                 (* while not stop.is_set() *)
| CGet                                   (* batch = proc_queue.get() *)
| CYield (batch : option Batch)          (* yield batch *)
| CAck                                   (* proc_queue.task_done() *)
| CFinally                               (* finally: stop.set() *)
| CEmptyProc                             (* while not proc_queue.empty() *)
| CEmptyLoad                             (* while not load_queue.empty() *)
| CJoin                                  (* process.join(), thread.join() *)
| CDone.

Inductive event : Type :=
| EvTau                                  (* an internal step *)
| EvLoad (batch : Batch)                 (* the loader enqueued a batch *)
| EvDrain                                (* stop_on_empty.set() *)
| EvSentinel                             (* proc_queue.put(None) *)
| EvStop (who : actor)                   (* stop.set() *)
| EvYield (batch : option Batch)         (* a value handed to the caller *)
| EvFault (who : actor).                 (* an exception *)

Record state : Type := {
  stop : bool;
  stop_on_empty : bool;
  load_queue : JQueue Batch;
  proc_queue : JQueue (option Batch);
  loader : loader_pc;
  workers : list worker_pc;
  consumer : consumer_pc
}.

Definition set_stop (s : state) : state :=
  {| stop := true; stop_on_empty := stop_on_empty s;
     load_queue := load_queue s; proc_queue := proc_queue s;
     loader := loader s; workers := workers s; consumer := consumer s |}.
Definition set_stop_on_empty (s : state) : state :=
  {| stop := stop s; stop_on_empty := true;
     load_queue := load_queue s; proc_queue := proc_queue s;
     loader := loader s; workers := workers s; consumer := consumer s |}.
Definition with_load_queue (s : state) (q : JQueue Batch) : state :=
  {| stop := stop s; stop_on_empty := stop_on_empty s;
     load_queue := q; proc_queue := proc_queue s;
     loader := loader s; workers := workers s; consumer := consumer s |}.
Definition with_proc_queue (s : state) (q : JQueue (option Batch)) : state :=
  {| stop := stop s; stop_on_empty := stop_on_empty s;
     load_queue := load_queue s; proc_queue := q;
     loader := loader s; workers := workers s; consumer := consumer s |}.
Definition with_loader (s : state) (pc : loader_pc) : state :=
  {| stop := stop s; stop_on_empty := stop_on_empty s;
     load_queue := load_queue s; proc_queue := proc_queue s;
     loader := pc; workers := workers s; consumer := consumer s |}.
Definition with_worker (s : state) (i : nat) (pc : worker_pc) : state :=
  {| stop := stop s; stop_on_empty := stop_on_empty s;
     load_queue := load_queue s; proc_queue := proc_queue s;
     loader := loader s; workers := <[i := pc]> (workers s);
     consumer := consumer s |}.
Definition with_consumer (s : state) (pc : consumer_pc) : state :=
  {| stop := stop s; stop_on_empty := stop_on_empty s;
     load_queue := load_queue s; proc_queue := proc_queue s;
     loader := loader s; workers := workers s; consumer := pc |}.

(** The state [flow] sets up: fresh events and queues, [nb_workers]
    processes, the loader thread and the consumer loop. *)
Definition init (self : t) : state :=
  {| stop := false; stop_on_empty := false;
     load_queue := q_new; proc_queue := q_new;
     loader := LWhile 0; workers := replicate (nb_workers self) WWhile;
     consumer := CWhile |}.

Definition loader_step (self : t) (s : state) : option (event * state) :=
  match loader s with
  | LWhile e =>
      if stop s then Some (EvTau, with_loader s LExit)
      else match __len__ self with
           | Ok n =>
               let indices := if shuffle self then rng e n else seq 0 n in
               Some (EvTau, with_loader s (LFor e indices 0))
           | Raise _ => Some (EvFault ALoader, with_loader s LDead)
           end
  | LFor e indices b =>
      if decide (b < num_batches self) then
        if stop s then Some (EvTau, with_loader s (LFor e indices (S b)))
        else match make_batch self indices b with
             | Ok batch => Some (EvTau, with_loader s (LPut e indices b batch))
             | Raise _ =>
                 Some (EvFault ALoader, set_stop (with_loader s LDead))
             end
      else if loop_forever self then Some (EvTau, with_loader s (LWhile (S e)))
      else Some (EvTau, with_loader s (LDrain e))
  | LPut e indices b batch =>
      q ← q_put (nb_workers self) batch (load_queue s);
      Some (EvLoad batch,
            with_load_queue (with_loader s (LFor e indices (S b))) q)
  | LDrain e => Some (EvDrain, set_stop_on_empty (with_loader s (LJoinLoad e)))
  | LJoinLoad e =>
      if q_joined (load_queue s)
      then Some (EvTau, with_loader s (LJoinProc e)) else None
  | LJoinProc e =>
      if q_joined (proc_queue s)
      then Some (EvTau, with_loader s (LPutNone e)) else None
  | LPutNone e =>
      q ← q_put (nb_workers self) None (proc_queue s);
      Some (EvSentinel, with_proc_queue (with_loader s (LJoinProc2 e)) q)
  | LJoinProc2 e =>
      if q_joined (proc_queue s)
      then Some (EvTau, with_loader s (LSetStop e)) else None
  | LSetStop e => Some (EvStop ALoader, set_stop (with_loader s (LWhile (S e))))
  | LExit | LDead => None
  end.

Definition worker_step (self : t) (i : nat) (s : state)
  : option (event * state) :=
  w ← workers s !! i;
  match w with
  | WWhile =>
      if stop s then Some (EvTau, with_worker s i WExit)
      else Some (EvTau, with_worker s i WEval)
  | WEval => Some (EvTau, with_worker s i (WGet (negb (stop_on_empty s))))
  | WGet block =>
      match q_get (load_queue s) with
      | Some (batch, q) =>
          Some (EvTau, with_load_queue (with_worker s i (WPut batch)) q)
      | None =>
          if block then None else Some (EvTau, with_worker s i WJoinLoad)
      end
  | WPut batch =>
      q ← q_put (nb_workers self) (_process_batch self batch) (proc_queue s);
      Some (EvTau, with_proc_queue (with_worker s i WAck) q)
  | WAck =>
      match q_task_done (load_queue s) with
      | Ok q => Some (EvTau, with_load_queue (with_worker s i WWhile) q)
      | Raise _ => Some (EvFault (AWorker i), set_stop (with_worker s i WDead))
      end
  | WJoinLoad =>
      if q_joined (load_queue s)
      then Some (EvTau, with_worker s i WJoinProc) else None
  | WJoinProc =>
      if q_joined (proc_queue s)
      then Some (EvTau, with_worker s i WSetStop) else None
  | WSetStop => Some (EvStop (AWorker i), set_stop (with_worker s i WWhile))
  | WExit | WDead => None
  end.

Definition worker_ended (w : worker_pc) : bool :=
  match w with WExit | WDead => true | _ => false end.
Definition loader_ended (l : loader_pc) : bool :=
  match l with LExit | LDead => true | _ => false end.

Definition consumer_step (self : t) (s : state) : option (event * state) :=
  match consumer s with
  | CWhile =>
      if stop s then Some (EvTau, with_consumer s CFinally)
      else Some (EvTau, with_consumer s CGet)
  | CGet =>
      '(batch, q) ← q_get (proc_queue s);
      Some (EvTau,
            with_proc_queue
              (with_consumer s (match batch with
                                | Some _ => CYield batch
                                | None => CAck
                                end)) q)
  | CYield batch => Some (EvYield batch, with_consumer s CAck)
  | CAck =>
      match q_task_done (proc_queue s) with
      | Ok q => Some (EvTau, with_proc_queue (with_consumer s CWhile) q)
      | Raise _ =>
          Some (EvFault AConsumer, set_stop (with_consumer s CFinally))
      end
  | CFinally => Some (EvStop AConsumer, set_stop (with_consumer s CEmptyProc))
  | CEmptyProc =>
      match q_get (proc_queue s) with
      | Some (_, q) => Some (EvTau, with_proc_queue s q)
      | None => Some (EvTau, with_consumer s CEmptyLoad)
      end
  | CEmptyLoad =>
      match q_get (load_queue s) with
      | Some (_, q) => Some (EvTau, with_load_queue s q)
      | None => Some (EvTau, with_consumer s CJoin)
      end
  | CJoin =>
      if forallb worker_ended (workers s) && loader_ended (loader s)
      then Some (EvTau, with_consumer s CDone) else None
  | CDone => None
  end.

(** One atomic step of the chosen stage; [None] when it is blocked or
    has ended. *)
Definition step (self : t) (s : state) (a : actor) : option (event * state) :=
  match a with
  | ALoader => loader_step self s
  | AWorker i => worker_step self i s
  | AConsumer => consumer_step self s
  end.

(** A run under a schedule, recorded as the states passed and the
    event of the step taken from each. *)
Fixpoint run (self : t) (sched : list actor) (s : state)
  : option (list (state * event) * state) :=
  match sched with
  | [] => Some ([], s)
  | a :: sched' =>
      '(ev, s') ← step self s a;
      '(tr, s'') ← run self sched' s';
      Some ((s, ev) :: tr, s'')
  end.

Definition events (tr : list (state * event)) : list event := snd <$> tr.

(** The values handed to the caller, in order. *)
Definition yields (tr : list (state * event)) : list (option Batch) :=
  omap (fun se => match snd se with EvYield x => Some x | _ => None end) tr.

(** The batches enqueued by the loader, in order. *)
Definition loads (tr : list (state * event)) : list Batch :=
  omap (fun se => match snd se with EvLoad b => Some b | _ => None end) tr.

Definition is_fault (ev : event) : bool :=
  match ev with EvFault _ => true | _ => false end.

(** No stage raised. *)
Definition fault_free (tr : list (state * event)) : Prop :=
  Forall (fun se => is_fault (snd se) = false) tr.

End flow.

Arguments t A : clear implicits.
Arguments state A : clear implicits.
Arguments event A : clear implicits.

End data_flow.

(* ================================================================== *)
(** * io.py: what the streaming protocol maintains                      *)
(* ================================================================== *)

Module Protocol.
Import data_flow.

Section invariants.
Context {A : Type}.

(** A worker between [load_queue.get()] and [load_queue.task_done()]. *)
Definition holding (w : worker_pc (A := A)) : nat :=
  match w with WPut _ | WAck => 1 | _ => 0 end.

Definition holders (ws : list (worker_pc (A := A))) : nat :=
  sum_list (holding <$> ws).

(** The consumer between [proc_queue.get()] and [proc_queue.task_done()]. *)
Definition consumer_holding (c : consumer_pc (A := A)) : nat :=
  match c with CYield _ | CAck => 1 | _ => 0 end.

(** The loader up to and including [stop_on_empty.set()]. *)
Definition pre_drain (l : loader_pc (A := A)) : bool :=
  match l with
  | LWhile 0 | LFor _ _ _ | LPut _ _ _ _ | LDrain _ => true
  | _ => false
  end.

(** The loader between [stop_on_empty.set()] and [stop.set()]. *)
Definition post_drain (l : loader_pc (A := A)) : bool :=
  match l with
  | LJoinLoad _ | LJoinProc _ | LPutNone _ | LJoinProc2 _ | LSetStop _ => true
  | _ => false
  end.

(** The loader after [stop.set()]. *)
Definition loader_finished (l : loader_pc (A := A)) : bool :=
  match l with LWhile (S _) | LExit => true | _ => false end.

(** The number of sentinels a loader at this point has pushed. *)
Definition sentinels_sent (l : loader_pc (A := A)) : nat :=
  match l with
  | LJoinProc2 _ | LSetStop _ | LWhile (S _) | LExit => 1
  | _ => 0
  end.

(** A worker that polls without blocking or has seen the queue empty. *)
Definition drained_worker (w : worker_pc (A := A)) : bool :=
  match w with
  | WGet false | WJoinLoad | WJoinProc | WSetStop => true
  | _ => false
  end.

(** The consumer once it has left its loop. *)
Definition consumer_left (c : consumer_pc (A := A)) : bool :=
  match c with
  | CFinally | CEmptyProc | CEmptyLoad | CJoin | CDone => true
  | _ => false
  end.

Definition is_sentinel (ev : event A) : bool :=
  match ev with EvSentinel => true | _ => false end.

Definition is_drain (ev : event A) : bool :=
  match ev with EvDrain => true | _ => false end.

(** The number of sentinels pushed along a run. *)
Definition sentinel_count (tr : list (state A * event A)) : nat :=
  length (filter (fun se => is_sentinel (snd se) = true) tr).

Record protocol_inv (s : state A) : Prop := {
  stop_after_drain : stop s = true -> stop_on_empty s = true;
  workers_drained :
    Forall (fun w => drained_worker w = true -> stop_on_empty s = true)
      (workers s);
  consumer_left_stop : consumer_left (consumer s) = true -> stop s = true;
  loader_post_drain : post_drain (loader s) = true -> stop_on_empty s = true;
  loader_pre_drain : pre_drain (loader s) = true -> stop_on_empty s = false;
  loader_finished_stop : loader_finished (loader s) = true -> stop s = true;
  load_bound :
    length (q_items (load_queue s)) + holders (workers s)
    <= q_unfinished (load_queue s);
  proc_bound :
    length (q_items (proc_queue s)) + consumer_holding (consumer s)
    <= q_unfinished (proc_queue s);
  load_settled :
    (exists e, loader s = LJoinProc e \/ loader s = LPutNone e) ->
    q_settled (load_queue s);
  proc_settled :
    (exists e, loader s = LPutNone e) -> q_settled (proc_queue s);
  yield_some : forall x, consumer s = CYield x -> x <> None
}.

Record trace_inv (tr : list (state A * event A)) (s : state A) : Prop := {
  drain_logged : stop_on_empty s = true -> EvDrain ∈ events tr;
  stops_after_drain :
    forall tr1 s1 who tr2,
      tr = tr1 ++ (s1, EvStop who) :: tr2 ->
      EvDrain ∈ events tr1 /\ stop_on_empty s1 = true;
  sentinel_counted : sentinel_count tr = sentinels_sent (loader s);
  sentinel_settled :
    forall s1, (s1, EvSentinel) ∈ tr ->
      q_settled (load_queue s1) /\ q_settled (proc_queue s1);
  yields_some : None ∉ yields tr
}.

End invariants.

(** ** One worker: the order of the batches *)

(** The index order of the first epoch (lines 125-128). *)
Definition first_indices {A : Type} (rng : nat -> nat -> list nat)
    (self : t A) (L : nat) : list nat :=
  if shuffle self then rng 0 L else seq 0 L.

Section one_worker.
Context {A : Type}.
Variable self : t A.
(** The index order of the first epoch and the batches cut from it. *)
Variable indices : list nat.
Variable batches : list (Batch (A := A)).

(** The batches of one epoch, as the loop of lines 130-138 builds them. *)
Definition epoch_batches (self : t A) (indices : list nat)
  : result (list (Batch (A := A))) :=
  for_each (make_batch self indices) (seq 0 (num_batches self)).

(** The number of batches the loader has enqueued. *)
Definition loaded (l : loader_pc (A := A)) : nat :=
  match l with
  | LWhile 0 => 0
  | LFor _ _ b | LPut _ _ b _ => b
  | _ => num_batches self
  end.

(** The loader is in its first epoch and holds the batch it built. *)
Definition loader_ok (l : loader_pc (A := A)) : Prop :=
  match l with
  | LFor e idx b => e = 0 /\ idx = indices /\ b <= num_batches self
  | LPut e idx b batch =>
      e = 0 /\ idx = indices /\ batches !! b = Some batch
  | LDead => False
  | _ => True
  end.

Definition consumer_batches (c : consumer_pc (A := A)) : list Batch :=
  match c with CYield (Some b) => [b] | _ => [] end.

Definition worker_batches (w : worker_pc (A := A)) : list Batch :=
  match w with WPut b => [b] | _ => [] end.

(** The batches enqueued and not yet handed to the caller, oldest first. *)
Definition in_flight (s : state A) : list Batch :=
  consumer_batches (consumer s) ++ omap id (q_items (proc_queue s))
    ++ flat_map worker_batches (workers s) ++ q_items (load_queue s).

(** The loader from [proc_queue.put(None)] on. *)
Definition loader_flushed (l : loader_pc (A := A)) : bool :=
  match l with
  | LPutNone _ | LJoinProc2 _ | LSetStop _ | LWhile (S _) | LExit => true
  | _ => false
  end.

(** The worker after its [load_queue.join()]. *)
Definition worker_saw_empty (w : worker_pc (A := A)) : bool :=
  match w with WJoinProc | WSetStop => true | _ => false end.

Record flow_inv (tr : list (state A * event A)) (s : state A) : Prop := {
  fi_protocol : protocol_inv s;
  fi_worker : exists w, workers s = [w];
  fi_loader : loader_ok (loader s);
  fi_loads : loads tr = take (loaded (loader s)) batches;
  fi_order : Some <$> loads tr = yields tr ++ (Some <$> in_flight s);
  fi_loader_flushed : loader_flushed (loader s) = true -> in_flight s = [];
  fi_worker_empty :
    forall w, workers s = [w] -> worker_saw_empty w = true ->
              q_items (load_queue s) = [];
  fi_worker_flushed : workers s = [WSetStop] -> in_flight s = [];
  fi_stop : stop s = true -> in_flight s = []
}.

(** The schedule that passes one batch through the three stages, and the
    one that shuts the pipeline down. *)
Definition round_schedule : list (actor) :=
  [ALoader; ALoader;
   AWorker 0; AWorker 0; AWorker 0; AWorker 0; AWorker 0;
   AConsumer; AConsumer; AConsumer; AConsumer].

Definition closing_schedule : list (actor) :=
  [ALoader; ALoader; ALoader; ALoader; ALoader;
   AConsumer; AConsumer; AConsumer;
   ALoader; ALoader; ALoader;
   AWorker 0;
   AConsumer; AConsumer; AConsumer; AConsumer; AConsumer].

Definition sequential_schedule (n : nat) : list (actor) :=
  ALoader :: concat (replicate n round_schedule) ++ closing_schedule.

(** The pipeline between two batches, [b] of them enqueued and yielded,
    and the pipeline after a complete shutdown. *)
Definition idle (b : nat) : state A :=
  {| stop := false; stop_on_empty := false;
     load_queue := q_new; proc_queue := q_new;
     loader := LFor 0 indices b;
     workers := [WWhile]; consumer := CWhile |}.

Definition finished : state A :=
  {| stop := true; stop_on_empty := true;
     load_queue := q_new; proc_queue := q_new;
     loader := LExit; workers := [WExit]; consumer := CDone |}.

End one_worker.

(** ** Endless streaming and queue capacity *)

Section endless.
Context {A : Type}.

(** A loader, worker or consumer that has not begun to shut down. *)
Definition loader_looping (l : loader_pc (A := A)) : bool :=
  match l with LWhile _ | LFor _ _ _ | LPut _ _ _ _ => true | _ => false end.
Definition worker_looping (w : worker_pc (A := A)) : bool :=
  match w with
  | WWhile | WEval | WGet true | WPut _ | WAck => true
  | _ => false
  end.
Definition consumer_looping (c : consumer_pc (A := A)) : bool :=
  match c with CWhile | CGet | CYield _ | CAck => true | _ => false end.

Record forever_inv (s : state A) : Prop := {
  fe_stop : stop s = false;
  fe_drain : stop_on_empty s = false;
  fe_loader : loader_looping (loader s) = true;
  fe_workers : Forall (fun w => worker_looping w = true) (workers s);
  fe_consumer : consumer_looping (consumer s) = true
}.

(** An event of the shutdown protocol. *)
Definition is_shutdown (ev : event A) : bool :=
  match ev with EvDrain | EvSentinel | EvStop _ => true | _ => false end.

(** Both queues within their capacity. *)
Definition within_capacity (self : t A) (s : state A) : Prop :=
  length (q_items (load_queue s)) <= nb_workers self
  /\ length (q_items (proc_queue s)) <= nb_workers self.

End endless.
End Protocol.

(* ================================================================== *)
(** * The vocabulary of the indexing laws                               *)
(* ================================================================== *)

Module Contract.
Import multi_source_array.

(** A source indexes numpy-style when a one-element tuple [(i,)] between
    the brackets selects what the bare integer [i] selects. *)
Definition tuple1_law (s : Source) : Prop :=
  forall i, src_getitem s (KTuple [KInt i]) = src_getitem s (KInt i).

(** The element a lookup returned; [None] has no [.shape]. *)
Definition as_array (v : pyval) : result ndarray :=
  match v with PArr a => Ok a | PNone => Raise AttributeError end.

(** [arr[k]] for each key of a list, as independent lookups. *)
Definition lookup_rows (arr : t) (keys : list key) : result (list ndarray) :=
  for_each (fun k => v ← __getitem__ arr k; as_array v) keys.

(** "The stack of [arr[k1], ..., arr[kn]]". *)
Definition stack_of (arr : t) (keys : list key) : result pyval :=
  elems ← lookup_rows arr keys; stack (dtype arr) elems.

(** A remainder list applied element-wise: row [i] is [arr[p_i, j_i]]. *)
Definition rows_zipped (arr : t) (ps js : list Z) : result pyval :=
  stack_of arr (zip_with (fun p j => KTuple [KInt p; KInt j]) ps js).

(** A remainder component passed through: row [i] is [arr[p_i, k]]. *)
Definition rows_broadcast (arr : t) (ps : list Z) (k : key) : result pyval :=
  stack_of arr ((fun p => KTuple [KInt p; k]) <$> ps).

(** The positions a boolean mask selects, in increasing order. *)
Definition true_positions (mask : list Z) : list Z :=
  Z.of_nat <$> nonzero_from 0 mask.

(** A source has the element shape and the element type of [s0]. *)
Definition conforms (s0 s : Source) : Prop :=
  tail (src_shape s) = tail (src_shape s0) /\ src_dtype s = src_dtype s0.

(** Position in the composite of element 0 of source [k], when the order
    is not shuffled. *)
Definition offset (sources : list Source) (k : nat) : nat :=
  sum_list (src_len <$> take k sources).

(** [list(it)]: the elements of a generator, or the exception that ended
    it. *)
Definition py_list {X} (it : list X * option exn) : result (list X) :=
  match it with
  | (xs, None) => Ok xs
  | (_, Some e) => Raise e
  end.



(** The cells of a list of rows, one row after the other, as they are
    stored in an array of type [dt]. *)
Definition cells (dt : DType) (elems : list ndarray) : list Z :=
  concat ((fun e => astype dt <$> nd_data e) <$> elems).

End Contract.

(* ================================================================== *)
(** * The vocabulary of the writer laws                                 *)
(* ================================================================== *)

Module WriterContract.
Import buffered_array_writer.

Section any_storage.
Context {Sto : Type} `{StorageArray Sto}.

(** [for d in ds: w.buffered_write(d)] *)
Fixpoint writes (ds : list ndarray) : method unit := fun self =>
  match ds with
  | [] => (Ok (), self)
  | d :: ds' =>
      match buffered_write d self with
      | (Ok _, self') => writes ds' self'
      | (Raise e, self') => (Raise e, self')
      end
  end.

(** The state of a writer that has accepted [k] elements. *)
Record accepted (bs : nat) (elem : list nat) (dt : DType) (len : option nat)
    (k : nat) (w : t Sto) : Prop := {
  acc_batch : batch_size w = bs;
  acc_elem : data_element_shape w = elem;
  acc_dtype : dtype w = dt;
  acc_length : length w = len;
  acc_buffer : nd_shape (buffer w) = bs :: elem;
  acc_count : storage_array_ptr w + buffer_ptr w = k;
  acc_room : buffer_ptr w < bs;
  acc_within : forall L, len = Some L -> k <= L;
  acc_ptr : buffer_ptr w = if decide (len = Some k) then 0 else k mod bs
}.
End any_storage.

(** The elements a writer of element shape [elem] and type [dt] may be
    given. *)
Definition element (elem : list nat) (dt : DType) (d : ndarray) : Prop :=
  nd_shape d = elem /\ nd_dtype d = dt /\ wf_array d.

(** Where the elements [done] written so far are, for a writer with a
    buffer of [bs] rows into a numpy array of [N] rows: the first
    [storage_array_ptr] in the storage array, the others in the buffer. *)
Record stored (N bs : nat) (elem : list nat) (dt : DType)
    (done : list ndarray) (w : t ndarray) : Prop := {
  st_storage :
    storage_array w
    = NDArray dt (N :: elem)
        (Contract.cells dt (take (storage_array_ptr w) done)
           ++ replicate ((N - storage_array_ptr w) * prod_list elem) 0%Z);
  st_buffer_shape : nd_shape (buffer w) = bs :: elem;
  st_buffer_dtype : nd_dtype (buffer w) = dt;
  st_buffer_len : List.length (nd_data (buffer w)) = bs * prod_list elem;
  st_buffer :
    take (buffer_ptr w * prod_list elem) (nd_data (buffer w))
    = Contract.cells dt (drop (storage_array_ptr w) done);
  st_count : storage_array_ptr w + buffer_ptr w = List.length done;
  st_bp : buffer_ptr w <= bs;
  st_N : List.length done <= N
}.

End WriterContract.

(* ================================================================== *)
(** * Concrete sources and writers used to exercise the model          *)
(* ================================================================== *)

Module Fixtures.

(** [i] as a position on an axis of extent [n]. *)
Definition norm_index (n : nat) (i : Z) : result nat :=
  let j := if (i <? 0)%Z then (i + Z.of_nat n)%Z else i in
  if ((0 <=? j) && (j <? Z.of_nat n))%Z then Ok (Z.to_nat j)
  else Raise IndexError.

Definition is_list (k : key) : bool :=
  match k with KList _ => true | _ => false end.

(** Indexing of a row-major array by integers and at most one list of
    integers, one key per axis from the first axis on. *)
Fixpoint np_index (ks : list key) (sh : list nat) (data : list Z)
  : result (list nat * list Z) :=
  match ks with
  | [] => Ok (sh, data)
  | k :: ks' =>
      match sh with
      | [] => Raise IndexError
      | n :: rest =>
          let sz := prod_list rest in
          match k with
          | KInt i =>
              j ← norm_index n i;
              np_index ks' rest (take sz (drop (j * sz) data))
          | KList js =>
              if existsb is_list ks' then Raise IndexError
              else
                subs ← for_each
                         (fun jk =>
                            match jk with
                            | KInt i =>
                                j ← norm_index n i;
                                np_index ks' rest (take sz (drop (j * sz) data))
                            | _ => Raise IndexError
                            end) js;
                Ok (length js :: default rest (fst <$> head subs),
                    concat (snd <$> subs))
          | _ => Raise IndexError
          end
      end
  end.

(** A numpy array as a data source. *)
Definition array_source (a : ndarray) : Source := {|
  src_len := hd 0 (nd_shape a);
  src_shape := nd_shape a;
  src_dtype := nd_dtype a;
  src_getitem k :=
    r ← match k with
        | KInt _ | KList _ => np_index [k] (nd_shape a) (nd_data a)
        | KTuple ks => np_index ks (nd_shape a) (nd_data a)
        | _ => Raise IndexError
        end;
    Ok (NDArray (nd_dtype a) (fst r) (snd r))
|}.

Definition vec3 : ndarray := NDArray dt_int64 [3] [10; 20; 30]%Z.
Definition vec2 : ndarray := NDArray dt_int64 [2] [40; 50]%Z.
Definition mat2 : ndarray := NDArray dt_int64 [2; 2] [10; 11; 12; 13]%Z.
Definition mat3 : ndarray :=
  NDArray dt_int64 [3; 2] [20; 21; 22; 23; 24; 25]%Z.

(** A generator that leaves the order as it is, and one that reverses it. *)
Definition rng_id : list (nat * nat) -> list (nat * nat) := fun l => l.
Definition rng_rev : list (nat * nat) -> list (nat * nat) := fun l => rev l.

(** A permutation generator for [data_flow]: the reversed order. *)
Definition flow_rng : nat -> nat -> list nat := fun _ n => rev (seq 0 n).

(** Two sources of five elements, batches of two, two workers, shuffled. *)
Definition pipe_two_workers : data_flow.t nat :=
  {| data_flow.data := [seq 100 5; seq 200 5];
     data_flow.batch_size := 2;
     data_flow.nb_workers := 2;
     data_flow.shuffle := true;
     data_flow.loop_forever := false;
     data_flow.num_batches := 3 |}.

(** A schedule under which that pipeline runs to completion. *)
Definition sched_two_workers : list data_flow.actor :=
  let L := data_flow.ALoader in
  let V := data_flow.AWorker 0 in
  let W := data_flow.AWorker 1 in
  let C := data_flow.AConsumer in
  [L; L; L; L; L; L; W; W; W; L; L; L; W; W; W; W; W; W; W; W; W; W;
   V; V; V; C; C; W; W; L; W; W; W; W; V; C; C; C; C; C; C; C; C; C; C;
   L; L; C; C; C; L; L; L; W; W; W; V; V; V; C; C; C; C; C].

(** The two matrices as the sources of a composite. *)
Definition two_mats : list Source := [array_source mat2; array_source mat3].

(** One source of ten elements, batches of four, one worker, reading
    epoch after epoch. *)
Definition pipe_forever : data_flow.t nat :=
  {| data_flow.data := [seq 100 10];
     data_flow.batch_size := 4;
     data_flow.nb_workers := 1;
     data_flow.shuffle := false;
     data_flow.loop_forever := true;
     data_flow.num_batches := 3 |}.

(** A schedule that takes the first batch of that pipeline to the
    caller. *)
Definition forever_sched : list data_flow.actor :=
  let L := data_flow.ALoader in
  let W := data_flow.AWorker 0 in
  let C := data_flow.AConsumer in
  [L; L; L; W; W; W; W; C; C; C; C; L; L].

End Fixtures.

(* ================================================================== *)
(** * Properties of the Python and numpy fragments                      *)
(* ================================================================== *)

Module Py_facts.

Lemma for_each_raise {X Y} (f : X -> result Y) (xs : list X) (e : exn) :
  for_each f xs = Raise e ->
  exists pre x post, xs = pre ++ x :: post
    /\ Forall (fun x => is_ok (f x) = true) pre /\ f x = Raise e.
Proof.
  induction xs as [|x xs IH]; simpl; [done|].
  destruct (f x) as [y|e'] eqn:Hx; simpl.
  - destruct (for_each f xs) as [ys|e'] eqn:Hxs; simpl; [done|].
    intros [= ->]. destruct (IH eq_refl) as (pre & x' & post & -> & Hpre & Hx').
    exists (x :: pre), x', post. repeat split; [|done].
    constructor; [by rewrite Hx | done].
  - intros [= ->]. exists [], x, xs. repeat split; [constructor | done].
Qed.

Lemma for_each_all_ok {X Y} (f : X -> result Y) (xs : list X) (ys : list Y) :
  for_each f xs = Ok ys -> Forall (fun x => is_ok (f x) = true) xs.
Proof.
  revert ys; induction xs as [|x xs IH]; intros ys; simpl; [constructor|].
  destruct (f x) as [y|] eqn:Hx; simpl; [|done].
  destruct (for_each f xs) as [ys'|] eqn:Hxs; simpl; [|done].
  intros _. constructor; [by rewrite Hx | by eapply IH].
Qed.

Lemma for_each_pure {X Y} (f : X -> result Y) (g : X -> Y) (xs : list X) :
  Forall (fun x => f x = Ok (g x)) xs -> for_each f xs = Ok (g <$> xs).
Proof.
  induction 1 as [|x xs Hx _ IH]; simpl; [done|]. by rewrite Hx, IH.
Qed.

Lemma for_each_seq_lookup {X Y} (f : X -> result Y) (g : nat -> result Y)
    (l : list X) (b : nat) :
  (forall k x, l !! k = Some x -> g (b + k) = f x) ->
  for_each g (seq b (length l)) = for_each f l.
Proof.
  revert b; induction l as [|x l IH]; intros b Hg; simpl; [done|].
  rewrite <- (Hg 0 x eq_refl), Nat.add_0_r.
  rewrite (IH (S b)); [done|].
  intros k y Hy. rewrite <- (Hg (S k) y Hy). f_equal. lia.
Qed.

Lemma for_each_fmap {X Y W} (f : Y -> result W) (g : X -> Y) (l : list X) :
  for_each f (g <$> l) = for_each (fun x => f (g x)) l.
Proof.
  induction l as [|x l IH]; [done|].
  cbn [fmap list_fmap for_each]. fold (fmap g l). by rewrite IH.
Qed.

Lemma list_index_nat {A} (l : list A) (i : nat) (x : A) :
  l !! i = Some x -> list_index l (Z.of_nat i) = Ok x.
Proof.
  intros Hx. pose proof (lookup_lt_Some _ _ _ Hx) as Hlt.
  unfold list_index.
  rewrite (proj2 (Z.ltb_ge _ _)) by lia.
  rewrite (proj2 (Z.leb_le _ _)), (proj2 (Z.ltb_lt _ _)) by lia.
  simpl. by rewrite Nat2Z.id, Hx.
Qed.

Lemma list_index_outside {A} (l : list A) (i : Z) :
  (i < - Z.of_nat (length l) \/ Z.of_nat (length l) <= i)%Z ->
  list_index l i = Raise IndexError.
Proof.
  intros Hout. unfold list_index.
  destruct (Z.ltb_spec i 0).
  - rewrite (proj2 (Z.leb_gt _ _)) by lia. done.
  - rewrite (proj2 (Z.ltb_ge i _)) by lia. by rewrite andb_false_r.
Qed.

Lemma list_index_inside {A} (l : list A) (i : Z) :
  (- Z.of_nat (length l) <= i < Z.of_nat (length l))%Z ->
  exists x, list_index l i = Ok x /\ x ∈ l.
Proof.
  intros Hin. unfold list_index.
  set (pos := if (i <? 0)%Z then (i + Z.of_nat (length l))%Z else i).
  assert (0 <= pos < Z.of_nat (length l))%Z as Hpos
    by (unfold pos; destruct (Z.ltb_spec i 0); lia).
  rewrite (proj2 (Z.leb_le _ _)), (proj2 (Z.ltb_lt _ _)) by lia. simpl.
  destruct (l !! Z.to_nat pos) as [x|] eqn:Hx.
  - exists x. split; [done|]. by eapply list_elem_of_lookup_2.
  - apply lookup_ge_None in Hx. lia.
Qed.

End Py_facts.

Module Np_facts.
Import Py_facts Contract.

Lemma chunks_concat_take (sz n : nat) (data : list Z) :
  concat (chunks sz n data) = take (n * sz) data.
Proof.
  unfold chunks. induction n as [|n IH]; [done|].
  rewrite seq_S, fmap_app, concat_app, IH. simpl. rewrite app_nil_r.
  replace (sz + n * sz) with (n * sz + sz) by lia.
  by rewrite take_take_drop.
Qed.

Lemma chunks_lengths (sz n : nat) (data : list Z) :
  List.length data = n * sz ->
  Forall (fun c => List.length c = sz) (chunks sz n data).
Proof.
  intros Hlen. unfold chunks. apply Forall_fmap, Forall_forall.
  intros k Hk. apply elem_of_seq in Hk. simpl.
  rewrite length_take, length_drop. nia.
Qed.

Lemma bcast_same (sh : list nat) (data : list Z) :
  List.length data = prod_list sh -> bcast sh sh data = Ok data.
Proof.
  revert data; induction sh as [|s ss IH]; intros data Hlen; [done|].
  simpl in *. rewrite decide_True by done.
  pose proof (chunks_lengths (prod_list ss) s data Hlen) as Hch.
  rewrite (for_each_pure _ id).
  - simpl. rewrite list_fmap_id, chunks_concat_take.
    by rewrite take_ge by lia.
  - eapply Forall_impl; [exact Hch|]. intros c Hc. by apply IH.
Qed.

Lemma broadcast_to_same (sh : list nat) (data : list Z) :
  List.length data = prod_list sh -> broadcast_to sh data sh = Ok data.
Proof.
  intros Hlen. unfold broadcast_to. rewrite Nat.sub_diag. simpl.
  rewrite Nat.sub_diag. by apply bcast_same.
Qed.

Lemma cells_cons (dt : DType) (e : ndarray) (elems : list ndarray) :
  cells dt (e :: elems) = (astype dt <$> nd_data e) ++ cells dt elems.
Proof. done. Qed.

Lemma cells_app (dt : DType) (l1 l2 : list ndarray) :
  cells dt (l1 ++ l2) = cells dt l1 ++ cells dt l2.
Proof. unfold cells. by rewrite fmap_app, concat_app. Qed.

Lemma astype_idemp (dt : DType) (v : Z) :
  astype dt (astype dt v) = astype dt v.
Proof. destruct dt; simpl; try done. by destruct (v =? 0)%Z. Qed.

Lemma astype_cells (dt : DType) (l : list ndarray) :
  astype dt <$> cells dt l = cells dt l.
Proof.
  induction l as [|d l IH]; [done|].
  rewrite cells_cons, fmap_app, IH. f_equal.
  rewrite <- list_fmap_compose. apply list_fmap_ext.
  intros _ v _. apply astype_idemp.
Qed.

End Np_facts.

(* ================================================================== *)
(** * Properties of multi_source_array                                  *)
(* ================================================================== *)

Module multi_source_array_facts.
Import multi_source_array.

Lemma bind_ok {A B} (m : result A) (f : A -> result B) (b : B) :
  m ≫= f = Ok b -> exists a, m = Ok a /\ f a = Ok b.
Proof. destruct m as [a|e]; simpl; [eauto | discriminate]. Qed.

Lemma length_enumerate_pairs (sources : list Source) (i : nat) :
  length (enumerate_pairs i sources) = sum_list (src_len <$> sources).
Proof.
  revert i; induction sources as [|s rest IH]; intros i; simpl; [done|].
  rewrite length_app, length_fmap, length_seq, IH. done.
Qed.

Section constructed.
Variable rng : list (nat * nat) -> list (nat * nat).
Variables (sources : list Source) (classes : option (list Z)) (shuf : bool).
Variable arr : t.
Hypothesis constructed : __init__ rng sources classes shuf = Ok arr.

Lemma init_fields :
  source_list arr = sources
  /\ num_items arr = sum_list (src_len <$> sources)
  /\ ndim arr = length (shape arr)
  /\ (exists s0, shape arr = num_items arr :: tail (src_shape s0))
  /\ index_pairs arr
     = if shuf then rng (enumerate_pairs 0 sources)
       else enumerate_pairs 0 sources.
Proof.
  unfold __init__ in constructed.
  apply bind_ok in constructed as (s0 & _ & Hc).
  apply bind_ok in Hc as (u & _ & Hc).
  injection Hc as <-; simpl.
  repeat split; eauto.
Qed.

Lemma length_index_pairs :
  (forall l, rng l ≡ₚ l) -> length (index_pairs arr) = __len__ arr.
Proof.
  intros rng_perm.
  destruct init_fields as (_ & Hn & _ & _ & Hp).
  unfold __len__. rewrite Hn, Hp, <- (length_enumerate_pairs _ 0).
  destruct shuf; [by rewrite rng_perm | done].
Qed.

Lemma ndim_pos : 1 <= ndim arr.
Proof.
  destruct init_fields as (_ & _ & Hd & (s0 & Hs) & _).
  rewrite Hd, Hs. simpl. lia.
Qed.
End constructed.



(** ** Routing of the keys *)

Import Contract.

Lemma fmap_as_array (r : result ndarray) :
  (PArr <$> r) ≫= (fun x => as_array x) = r.
Proof. by destruct r. Qed.

Lemma ret_bind {A B} (a : A) (f : A -> result B) : Ok a ≫= f = f a.
Proof. done. Qed.

Lemma row_key_remainder_not_seq (rem : option (list key)) (i : nat) :
  row_key_remainder false rem i = Ok rem.
Proof. by destruct rem. Qed.

Lemma getitem_int (arr : t) (p : Z) :
  __getitem__ arr (KInt p) = PArr <$> _get_element arr (KInt p) None.
Proof. done. Qed.

Lemma split_key_tuple (arr : t) (ks : list key) :
  Forall (fun s => Some s = head (key_shapes ks)) (key_shapes ks) ->
  length (key_shapes ks) <= ndim arr ->
  split_key arr (KTuple ks) = (k ← list_get ks 0; Ok (k, Some (tail ks))).
Proof.
  intros Hsh Hn. unfold split_key. simpl.
  rewrite decide_True by done. rewrite decide_False by lia.
  by rewrite orb_true_r.
Qed.

Lemma key_shapes_no_len (ks : list key) :
  Forall (fun k => has_len k = false) ks -> key_shapes ks = [].
Proof.
  unfold key_shapes. induction 1 as [|k ks Hk _ IH]; [done|].
  rewrite filter_cons_False; [done | congruence].
Qed.

(** An integer followed by sub-keys without length. *)
Lemma getitem_int_tuple (arr : t) (p : Z) (rem : list key) :
  Forall (fun k => has_len k = false) rem ->
  __getitem__ arr (KTuple (KInt p :: rem))
  = PArr <$> _get_element arr (KInt p) (Some rem).
Proof.
  intros Hrem. unfold __getitem__. rewrite split_key_tuple.
  - done.
  - rewrite key_shapes_no_len; by constructor.
  - rewrite key_shapes_no_len; [simpl; lia | by constructor].
Qed.

(** An integer followed by one sized sub-key. *)
Lemma getitem_int_sized (arr : t) (p : Z) (k : key) :
  1 <= ndim arr -> has_len k = true ->
  __getitem__ arr (KTuple [KInt p; k])
  = PArr <$> _get_element arr (KInt p) (Some [k]).
Proof.
  intros Hd Hk. unfold __getitem__.
  assert (key_shapes [KInt p; k] = [np_shape k]) as Hs.
  { unfold key_shapes. rewrite filter_cons_False by done.
    by rewrite filter_cons_True by done. }
  rewrite split_key_tuple; rewrite ?Hs; simpl; [done | by repeat constructor | lia].
Qed.

(** The loop of [_get_block] over rows whose reads are single lookups. *)
Lemma get_block_loop_lookup (arr : t) (is_seq : bool)
    (rem : option (list key)) (n : nat) (keys : list key) :
  forall (values : list key) (i : nat) (blk : option ndarray)
         (elems : list ndarray),
    length keys = length values ->
    (forall j v k, values !! j = Some v -> keys !! j = Some k ->
       (r ← row_key_remainder is_seq rem (i + j); _get_element arr v r)
       = (x ← __getitem__ arr k; as_array x)) ->
    lookup_rows arr keys = Ok elems ->
    get_block_loop arr is_seq rem n i values blk
    = stack_from (dtype arr) n i elems blk.
Proof.
  induction keys as [|k keys IH]; intros [|v values] i blk elems Hlen Hrow Hl;
    simpl in Hlen; try lia.
  - by injection Hl as <-.
  - unfold lookup_rows in Hl; simpl in Hl.
    apply bind_ok in Hl as (e & He & Hl).
    apply bind_ok in Hl as (es & Hes & Hl). injection Hl as <-.
    pose proof (Hrow 0 v k eq_refl eq_refl) as H0.
    rewrite Nat.add_0_r, He in H0. simpl.
    destruct (row_key_remainder is_seq rem i) as [r|ex]; simpl in *;
      [|discriminate].
    rewrite H0. simpl.
    destruct (place_row (dtype arr) n i e blk) as [b'|ex]; simpl; [|done].
    apply IH; [lia | | exact Hes].
    intros j v' k' Hv Hk. specialize (Hrow (S j) v' k' Hv Hk).
    by replace (S i + j) with (i + S j) by lia.
Qed.

Lemma lookup_rows_length (arr : t) (keys : list key) (elems : list ndarray) :
  lookup_rows arr keys = Ok elems -> length elems = length keys.
Proof.
  revert elems; induction keys as [|k keys IH]; intros elems Hl;
    unfold lookup_rows in Hl; simpl in Hl.
  - by injection Hl as <-.
  - apply bind_ok in Hl as (e & _ & Hl).
    apply bind_ok in Hl as (es & Hes & Hl). injection Hl as <-.
    simpl. f_equal. by apply IH.
Qed.

(** [_get_block] over rows whose reads are single lookups is the stack
    of those lookups. *)
Lemma get_block_stack_of (arr : t) (is_seq : bool) (rem : option (list key))
    (values keys : list key) :
  length keys = length values ->
  (forall j v k, values !! j = Some v -> keys !! j = Some k ->
     (r ← row_key_remainder is_seq rem j; _get_element arr v r)
     = (x ← __getitem__ arr k; as_array x)) ->
  is_ok (lookup_rows arr keys) = true ->
  _get_block arr is_seq values rem = stack_of arr keys.
Proof.
  intros Hlen Hrow Hok. unfold _get_block, stack_of.
  destruct (lookup_rows arr keys) as [elems|] eqn:Hl; [|done]. simpl.
  unfold stack. rewrite (lookup_rows_length _ _ _ Hl), Hlen.
  f_equal. by apply (get_block_loop_lookup arr is_seq rem _ keys).
Qed.

(** ** Shapes of integer lists *)

Lemma foldl_lcp_nil (shapes : list (list nat)) : foldl lcp [] shapes = [].
Proof. induction shapes; simpl; auto. Qed.

Lemma np_shape_int_list (l : list Z) : np_shape (KList (KInt <$> l)) = [length l].
Proof.
  simpl. rewrite length_fmap. f_equal.
  destruct l as [|z l]; simpl; [done | apply foldl_lcp_nil].
Qed.

Lemma has_len_ints (l : list Z) :
  Forall (fun k => has_len k = false) (KInt <$> l).
Proof. apply Forall_fmap, Forall_true. done. Qed.

Lemma range_empty (a : Z) : range a a 1 = Ok [].
Proof.
  unfold range, range_len. simpl.
  replace (a - a + 1 - 1)%Z with 0%Z by lia. done.
Qed.

(** ** Blocks read through integer keys *)

Lemma get_block_ints (arr : t) (zs : list Z) :
  is_ok (lookup_rows arr (KInt <$> zs)) = true ->
  _get_block arr false (KInt <$> zs) None = stack_of arr (KInt <$> zs).
Proof.
  intros Hok. apply get_block_stack_of; [done | | done].
  intros j v k Hv Hk. rewrite Hv in Hk. injection Hk as <-.
  apply list_lookup_fmap_Some in Hv as (z & -> & _).
  rewrite row_key_remainder_not_seq, ret_bind, getitem_int.
  by rewrite fmap_as_array.
Qed.

(** A slice with both bounds given is the stack of the single lookups
    over its range. *)
Lemma getitem_slice_stack (arr : t) (a b : Z) (r : list Z) :
  range a b 1 = Ok r ->
  is_ok (lookup_rows arr (KInt <$> r)) = true ->
  __getitem__ arr (KSlice (Some a) (Some b) None) = stack_of arr (KInt <$> r).
Proof.
  intros Hr Hok. unfold __getitem__, split_key. cbn -[range].
  rewrite Hr, ret_bind. by apply get_block_ints.
Qed.

Section numpy_style_sources.
Variable arr : t.
Hypothesis law : Forall tuple1_law (source_list arr).

Lemma get_element_tuple1 (v : key) :
  _get_element arr v (Some []) = _get_element arr v None.
Proof.
  destruct v; simpl; try done.
  destruct (list_index (index_pairs arr) i) as [p|]; simpl; [|done].
  unfold list_get. destruct (source_list arr !! p.1) as [src|] eqn:E; simpl;
    [|done].
  rewrite Forall_lookup in law. by apply (law _ _ E).
Qed.

Lemma get_block_loop_tuple1 (is_seq : bool) (n : nat) (values : list key) :
  forall i blk,
    get_block_loop arr is_seq (Some []) n i values blk
    = get_block_loop arr is_seq None n i values blk.
Proof.
  induction values as [|v values IH]; intros i blk; simpl; [done|].
  destruct is_seq; simpl; rewrite get_element_tuple1;
    destruct (_get_element arr v None); simpl; try done;
    destruct (place_row _ _ _ _ _); simpl; auto.
Qed.

Lemma get_block_tuple1 (is_seq : bool) (values : list key) :
  _get_block arr is_seq values (Some []) = _get_block arr is_seq values None.
Proof. unfold _get_block. by rewrite get_block_loop_tuple1. Qed.
End numpy_style_sources.

(** ** The indexing claims *)

Import Fixtures.


(** C5. For every composite and every [a], the slice [arr[a:a]] returns
    [None]: the buffer of [_get_block] is allocated only once a first
    element has been read, so an empty range yields no array at all, not
    a stack of zero rows. *)
Theorem getitem_empty_slice (arr : t) (a : Z) :
  __getitem__ arr (KSlice (Some a) (Some a) None) = Ok PNone.
Proof.
  unfold __getitem__, split_key. cbn -[range].
  by rewrite range_empty.
Qed.

(** C6. With sources that index numpy-style, a list of integers nested
    once is treated as the flat list ([arr[[l]]] is [arr[l]]), and the
    list nested twice ([arr[[[l]]]]) fails with an [IndexError]. *)
Theorem getitem_nested_list
    (rng : list (nat * nat) -> list (nat * nat))
    (sources : list Source) (classes : option (list Z)) (shuf : bool)
    (arr : t) (l : list Z) :
  __init__ rng sources classes shuf = Ok arr ->
  Forall tuple1_law sources ->
  __getitem__ arr (KList [KList (KInt <$> l)])
    = __getitem__ arr (KList (KInt <$> l))
  /\ __getitem__ arr (KList [KList [KList (KInt <$> l)]]) = Raise IndexError.
Proof.
  intros Hinit Hlaw.
  pose proof (ndim_pos _ _ _ _ _ Hinit) as Hd.
  destruct (init_fields _ _ _ _ _ Hinit) as (Hsrc & _).
  rewrite <- Hsrc in Hlaw.
  split.
  - unfold __getitem__ at 1. unfold split_key.
    cbn [has_len key_items mbind result_bind].
    assert (key_shapes [KList (KInt <$> l)] = [[length l]]) as ->.
    { unfold key_shapes. rewrite filter_cons_True by done.
      rewrite filter_nil. cbn [fmap list_fmap]. by rewrite np_shape_int_list. }
    rewrite decide_True by (by repeat constructor).
    rewrite decide_False by (simpl; lia).
    cbn. rewrite (get_block_tuple1 arr Hlaw).
    unfold __getitem__, split_key.
    cbn [has_len key_items mbind result_bind].
    rewrite (key_shapes_no_len _ (has_len_ints l)).
    rewrite decide_True by constructor.
    rewrite decide_False by (simpl; lia).
    done.
  - unfold __getitem__, split_key.
    cbn [has_len key_items mbind result_bind].
    assert (exists s, key_shapes [KList [KList (KInt <$> l)]] = [s]) as [sh ->].
    { unfold key_shapes. rewrite filter_cons_True by done. by eexists. }
    rewrite decide_True by (by repeat constructor).
    rewrite decide_False by (simpl; lia).
    done.
Qed.

Lemma getitem_nested_list_witness :
  exists arr,
    __init__ rng_id [array_source mat2; array_source mat3] None false = Ok arr
    /\ __getitem__ arr (KList [KList [KInt 0; KInt 1]])
       = __getitem__ arr (KList [KInt 0; KInt 1])
    /\ __getitem__ arr (KList [KList [KList [KInt 0; KInt 1]]])
       = Raise IndexError.
Proof.
  eexists; split; [reflexivity|].
  apply (getitem_nested_list rng_id [array_source mat2; array_source mat3]
           None false _ [0; 1]%Z).
  - reflexivity.
  - repeat constructor; intros i; reflexivity.
Defined.

(** *** Boolean masks *)

Lemma nonzero_from_shift (mask : list Z) (p : nat) :
  nonzero_from (S p) mask = S <$> nonzero_from p mask.
Proof.
  revert p; induction mask as [|v mask IH]; intros p; simpl; [done|].
  destruct (v =? 0)%Z; simpl; by rewrite IH.
Qed.

Lemma nonzero_1d (mask : list Z) :
  nonzero [length mask] mask
  = [KArray dt_int64 [length (true_positions mask)] (true_positions mask)].
Proof.
  unfold nonzero, true_positions. cbn [length seq fmap list_fmap prod_list foldr].
  rewrite Nat.mul_1_r, firstn_all, length_fmap. do 2 f_equal.
  apply list_fmap_ext. intros _ p _.
  cbn [nth unravel prod_list foldr]. by rewrite Nat.div_1_r.
Qed.

(** A mask of the wrong length is accepted when the ranks agree, and a
    mask of the right length is refused when they do not. *)
Lemma mask_length_is_not_checked :
  (arr ← __init__ rng_id [array_source vec3] None false;
   Ok (__len__ arr, __getitem__ arr (KArray dt_bool [2] [1; 0]%Z)))
  = Ok (3, Ok (PArr (NDArray dt_int64 [1] [10]%Z)))
  /\ (arr ← __init__ rng_id [array_source mat2; array_source mat3] None false;
      Ok (__len__ arr, __getitem__ arr (KArray dt_bool [5] [1; 0; 1; 0; 0]%Z)))
     = Ok (5, Raise IndexError).
Proof. split; vm_compute; reflexivity. Qed.

(** C2 (amended).  A boolean mask is checked for its rank only: [get]
    fails with an [IndexError] whenever the number of dimensions of the
    mask differs from that of the composite, whatever the lengths.  When
    both are one-dimensional, the sources index numpy-style and at least
    one position is true, [get] returns the stack of the single lookups
    [arr[p]] at the true positions [p], in increasing order. *)
Theorem getitem_mask
    (rng : list (nat * nat) -> list (nat * nat))
    (sources : list Source) (classes : option (list Z)) (shuf : bool)
    (arr : t) :
  __init__ rng sources classes shuf = Ok arr ->
  (forall sh data, length sh <> ndim arr ->
     __getitem__ arr (KArray dt_bool sh data) = Raise IndexError)
  /\ (forall mask,
        ndim arr = 1 ->
        Forall tuple1_law sources ->
        true_positions mask <> [] ->
        is_ok (lookup_rows arr (KInt <$> true_positions mask)) = true ->
        __getitem__ arr (KArray dt_bool [length mask] mask)
        = stack_of arr (KInt <$> true_positions mask)).
Proof.
  intros Hinit. split.
  - intros sh data Hsh. unfold __getitem__, split_key. simpl.
    by rewrite decide_True.
  - intros mask Hd Hlaw _ Hok.
    destruct (init_fields _ _ _ _ _ Hinit) as (Hsrc & _).
    rewrite <- Hsrc in Hlaw.
    unfold __getitem__, split_key.
    cbn [has_len mbind result_bind].
    rewrite decide_True by done.
    rewrite decide_False by (simpl; lia).
    rewrite nonzero_1d.
    cbn [key_items mbind result_bind].
    assert (key_shapes
              [KArray dt_int64 [length (true_positions mask)]
                 (true_positions mask)]
            = [[length (true_positions mask)]]) as ->.
    { unfold key_shapes. by rewrite filter_cons_True by done. }
    rewrite decide_True by (by repeat constructor).
    rewrite decide_False by (simpl; lia).
    cbn [length Nat.eqb negb orb list_get lookup list_lookup mbind result_bind
         tail key_items array_items is_list_or_tuple].
    rewrite firstn_all.
    rewrite (get_block_tuple1 arr Hlaw).
    by apply get_block_ints.
Qed.

Lemma getitem_mask_witness :
  exists arr,
    __init__ rng_id [array_source vec3; array_source vec2] None false = Ok arr
    /\ __getitem__ arr (KArray dt_bool [2; 2] [1; 0; 0; 1]%Z) = Raise IndexError
    /\ __getitem__ arr (KArray dt_bool [4] [0; 1; 0; 1]%Z)
       = stack_of arr [KInt 1; KInt 3].
Proof.
  eexists; split; [reflexivity|].
  destruct (getitem_mask rng_id [array_source vec3; array_source vec2]
              None false _ eq_refl) as [Hrank Hsel].
  split.
  - apply Hrank. simpl. lia.
  - apply (Hsel [0; 1; 0; 1]%Z).
    + reflexivity.
    + repeat constructor; intros i; reflexivity.
    + discriminate.
    + reflexivity.
Defined.

(** *** Remainder components *)

(** Behind a slice, a list as long as the selection is handed whole to
    every row; behind a list, a list of another length is refused. *)
Lemma remainder_list_not_decided_by_length :
  (arr ← __init__ rng_id [array_source mat2; array_source mat3] None false;
   Ok (__getitem__ arr (KTuple [KSlice (Some 0%Z) (Some 2%Z) None;
                                KList [KInt 1; KInt 0]]),
       rows_zipped arr [0; 1]%Z [1; 0]%Z,
       rows_broadcast arr [0; 1]%Z (KList [KInt 1; KInt 0])))
  = Ok (Ok (PArr (NDArray dt_int64 [2; 2] [11; 10; 13; 12]%Z)),
        Ok (PArr (NDArray dt_int64 [2] [11; 12]%Z)),
        Ok (PArr (NDArray dt_int64 [2; 2] [11; 10; 13; 12]%Z)))
  /\ (arr ← __init__ rng_id [array_source mat2; array_source mat3] None false;
      Ok (__getitem__ arr (KTuple [KList [KInt 0; KInt 1]; KList [KInt 1]]),
          rows_broadcast arr [0; 1]%Z (KList [KInt 1])))
     = Ok (Raise IndexError,
           Ok (PArr (NDArray dt_int64 [2; 1] [11; 13]%Z))).
Proof. split; vm_compute; reflexivity. Qed.

Lemma row_key_remainder_zip (js : list Z) (i : nat) (j : Z) :
  js !! i = Some j ->
  row_key_remainder true (Some [KList (KInt <$> js)]) i = Ok (Some [KInt j]).
Proof.
  intros Hj. unfold row_key_remainder, for_each.
  cbn [has_len py_len mbind result_bind].
  unfold np_size. rewrite np_shape_int_list. cbn [prod_list foldr].
  rewrite length_fmap, decide_True by lia.
  unfold key_get, list_get. cbn [key_items mbind result_bind].
  by rewrite list_lookup_fmap, Hj.
Qed.

(** C3 (amended).  What decides how a remainder list is applied is the
    kind of the primary component, not the length of the list.  Behind a
    primary list of [n] integers, a remainder list of integers of length
    [n] is applied element-wise (row [i] is [arr[p_i, j_i]]) and one of
    another length makes [get] fail with an [IndexError]; behind a
    primary slice, a remainder list or array is passed unchanged to every
    selected row (row [i] is [arr[p_i, k]]), whatever its length. *)
Theorem getitem_remainder
    (rng : list (nat * nat) -> list (nat * nat))
    (sources : list Source) (classes : option (list Z)) (shuf : bool)
    (arr : t) :
  __init__ rng sources classes shuf = Ok arr ->
  (forall ps js,
     length js = length ps -> 2 <= ndim arr ->
     is_ok (lookup_rows arr
              (zip_with (fun p j => KTuple [KInt p; KInt j]) ps js)) = true ->
     __getitem__ arr (KTuple [KList (KInt <$> ps); KList (KInt <$> js)])
     = rows_zipped arr ps js)
  /\ (forall ps js,
        length js <> length ps ->
        __getitem__ arr (KTuple [KList (KInt <$> ps); KList (KInt <$> js)])
        = Raise IndexError)
  /\ (forall start stop step k r,
        has_len k = true ->
        range (default 0%Z start) (default (Z.of_nat (__len__ arr)) stop)
          (default 1%Z step) = Ok r ->
        is_ok (lookup_rows arr ((fun p => KTuple [KInt p; k]) <$> r)) = true ->
        __getitem__ arr (KTuple [KSlice start stop step; k])
        = rows_broadcast arr r k).
Proof.
  intros Hinit. pose proof (ndim_pos _ _ _ _ _ Hinit) as Hd.
  assert (forall ps js,
            key_shapes [KList (KInt <$> ps); KList (KInt <$> js)]
            = [[length ps]; [length js]]) as Hshapes.
  { intros ps js. unfold key_shapes. do 2 rewrite filter_cons_True by done.
    rewrite filter_nil. cbn [fmap list_fmap].
    by rewrite !np_shape_int_list. }
  split; [|split].
  - intros ps js Hlen Hd2 Hok. unfold __getitem__.
    rewrite split_key_tuple; rewrite ?Hshapes, ?Hlen; simpl;
      [| by repeat constructor | lia].
    apply get_block_stack_of; [| |done].
    + rewrite length_zip_with, length_fmap. lia.
    + intros i v k Hv Hk.
      apply list_lookup_fmap_Some in Hv as (p & -> & Hp).
      apply lookup_zip_with_Some in Hk as (p' & j & -> & Hp' & Hj).
      rewrite Hp in Hp'. injection Hp' as <-.
      rewrite (row_key_remainder_zip _ _ _ Hj), ret_bind.
      rewrite getitem_int_tuple by (by repeat constructor).
      by rewrite fmap_as_array.
  - intros ps js Hlen. unfold __getitem__, split_key.
    cbn [has_len key_items mbind result_bind]. rewrite Hshapes.
    rewrite decide_False; [done|].
    intros HF. apply Forall_cons in HF as [_ HF].
    apply Forall_cons in HF as [HF _]. simpl in HF. congruence.
  - intros start stop step k r Hk Hr Hok. unfold __getitem__.
    assert (key_shapes [KSlice start stop step; k] = [np_shape k]) as Hs.
    { unfold key_shapes. rewrite filter_cons_False by done.
      by rewrite filter_cons_True by done. }
    rewrite split_key_tuple; rewrite ?Hs; simpl;
      [| by repeat constructor | lia].
    unfold __len__ in Hr. rewrite Hr, ret_bind.
    apply get_block_stack_of; [by rewrite !length_fmap | | done].
    intros i v k' Hv Hk'.
    apply list_lookup_fmap_Some in Hv as (p & -> & Hp).
    apply list_lookup_fmap_Some in Hk' as (p' & -> & Hp').
    rewrite Hp in Hp'. injection Hp' as <-.
    rewrite row_key_remainder_not_seq, ret_bind.
    rewrite getitem_int_sized by done.
    by rewrite fmap_as_array.
Qed.

Lemma getitem_remainder_witness :
  exists arr,
    __init__ rng_id [array_source mat2; array_source mat3] None false = Ok arr
    /\ __getitem__ arr (KTuple [KList [KInt 0; KInt 4]; KList [KInt 1; KInt 0]])
       = rows_zipped arr [0; 4]%Z [1; 0]%Z
    /\ __getitem__ arr (KTuple [KList [KInt 0; KInt 4]; KList [KInt 1]])
       = Raise IndexError
    /\ __getitem__ arr (KTuple [KSlice (Some 1%Z) None None;
                                KList [KInt 1; KInt 0]])
       = rows_broadcast arr [1; 2; 3; 4]%Z (KList [KInt 1; KInt 0]).
Proof.
  eexists; split; [reflexivity|].
  destruct (getitem_remainder rng_id [array_source mat2; array_source mat3]
              None false _ eq_refl) as (Hzip & Hlen & Hslice).
  split; [|split].
  - apply (Hzip [0; 4]%Z [1; 0]%Z); [reflexivity | simpl; lia | reflexivity].
  - apply (Hlen [0; 4]%Z [1]%Z). simpl. lia.
  - apply (Hslice (Some 1%Z) None None (KList [KInt 1; KInt 0]));
      reflexivity.
Defined.

(** ** The constructor *)

Import Py_facts Np_facts.

Lemma check_source_ok (s0 : Source) (n : nat) (s : Source) :
  is_ok (check_source (n :: tail (src_shape s0)) (src_dtype s0) s) = true
  <-> conforms s0 s.
Proof.
  unfold check_source, conforms. simpl.
  repeat case_decide; simpl; split; intros; try done; tauto.
Qed.

(** X1. The outcome of the constructor: it returns when there is a first
    source and every source has its element shape and element type;
    otherwise the first source that differs decides the exception. *)
Theorem composite_init_outcome (rng : list (nat * nat) -> list (nat * nat))
    (sources : list Source) (classes : option (list Z)) (shuf : bool) :
  match __init__ rng sources classes shuf with
  | Ok arr =>
      exists s0 rest, sources = s0 :: rest
        /\ Forall (conforms s0) sources
        /\ arr = {| source_list := sources; class_list := classes;
                    shuffle := shuf;
                    num_items := sum_list (src_len <$> sources);
                    dtype := src_dtype s0;
                    shape := sum_list (src_len <$> sources)
                               :: tail (src_shape s0);
                    ndim := S (length (tail (src_shape s0)));
                    index_pairs := if shuf
                                   then rng (enumerate_pairs 0 sources)
                                   else enumerate_pairs 0 sources |}
  | Raise e =>
      (e = IndexError /\ sources = [])
      \/ exists s0 rest pre s post,
           sources = s0 :: rest /\ sources = pre ++ s :: post
           /\ Forall (conforms s0) pre
           /\ ((e = ValueError
                /\ tail (src_shape s) <> tail (src_shape s0))
               \/ (e = TypeError
                   /\ tail (src_shape s) = tail (src_shape s0)
                   /\ src_dtype s <> src_dtype s0))
  end.
Proof.
  unfold __init__. destruct sources as [|s0 rest]; [by left|].
  cbn [list_get lookup list_lookup mbind result_bind].
  set (srcs := s0 :: rest).
  destruct (for_each _ srcs) as [us|e] eqn:Hchk; cbn [mbind result_bind].
  - exists s0, rest. split; [done|]. split; [|done].
    apply for_each_all_ok in Hchk.
    eapply Forall_impl; [exact Hchk|]. intros s. apply check_source_ok.
  - right. apply for_each_raise in Hchk as (pre & s & post & Hsplit & Hpre & Hs).
    exists s0, rest, pre, s, post. split; [done|]. split; [done|]. split.
    + eapply Forall_impl; [exact Hpre|]. intros s'. apply check_source_ok.
    + unfold check_source in Hs. simpl in Hs.
      repeat case_decide; simplify_eq.
      * by left.
      * right. by repeat split.
Qed.

(** ** The index map *)

Lemma elem_of_enumerate_pairs (sources : list Source) (b i j : nat) :
  (i, j) ∈ enumerate_pairs b sources
  <-> b <= i /\ exists s, sources !! (i - b) = Some s /\ j < src_len s.
Proof.
  revert b; induction sources as [|s rest IH]; intros b; simpl.
  - split; [by intros ?%elem_of_nil | by intros (_ & ? & ? & _)].
  - rewrite elem_of_app, list_elem_of_fmap, IH. split.
    + intros [(j' & Heq & Hj) | (Hb & s' & Hs' & Hj)].
      * injection Heq as -> ->. apply elem_of_seq in Hj. split; [lia|]. exists s.
        rewrite Nat.sub_diag. split; [done | lia].
      * split; [lia|]. exists s'. split; [|done].
        replace (i - b) with (S (i - S b)) by lia. done.
    + intros (Hb & s' & Hs' & Hj).
      destruct (decide (i = b)) as [->|Hne].
      * left. rewrite Nat.sub_diag in Hs'. injection Hs' as <-.
        exists j. split; [done|]. apply elem_of_seq. lia.
      * right. split; [lia|]. exists s'. split; [|done].
        replace (i - b) with (S (i - S b)) in Hs' by lia. done.
Qed.

Lemma NoDup_enumerate_pairs (sources : list Source) (b : nat) :
  NoDup (enumerate_pairs b sources).
Proof.
  revert b; induction sources as [|s rest IH]; intros b; simpl;
    [constructor|].
  apply NoDup_app. split; [|split].
  - apply NoDup_fmap_2; [|apply NoDup_seq]. by intros ?? [= ->].
  - intros [i j] Hl Hr. apply list_elem_of_fmap in Hl as (j' & Heq & _).
    injection Heq as -> ->. apply elem_of_enumerate_pairs in Hr as [Hb _]. lia.
  - apply IH.
Qed.

Lemma enumerate_pairs_lookup (sources : list Source) (b k j : nat) (s : Source) :
  sources !! k = Some s -> j < src_len s ->
  enumerate_pairs b sources !! (offset sources k + j) = Some (b + k, j).
Proof.
  revert b k; induction sources as [|s' rest IH]; intros b k Hs Hj; [done|].
  destruct k as [|k]; simpl in *.
  - injection Hs as ->. unfold offset. simpl.
    rewrite lookup_app_l by (rewrite length_fmap, length_seq; lia).
    rewrite list_lookup_fmap, lookup_seq_lt by done. simpl.
    by rewrite Nat.add_0_r.
  - unfold offset. simpl.
    rewrite lookup_app_r by (rewrite length_fmap, length_seq; lia).
    rewrite length_fmap, length_seq.
    change (list_fmap Source nat src_len (take k rest))
      with (src_len <$> take k rest).
    fold (offset rest k).
    replace (src_len s' + offset rest k + j - src_len s')
      with (offset rest k + j) by lia.
    rewrite (IH (S b) k) by done. f_equal. f_equal. lia.
Qed.

Lemma index_pairs_facts (rng : list (nat * nat) -> list (nat * nat))
    (sources : list Source) (classes : option (list Z)) (shuf : bool)
    (arr : t) :
  (forall l, rng l ≡ₚ l) ->
  __init__ rng sources classes shuf = Ok arr ->
  length (index_pairs arr) = __len__ arr
  /\ forall i j, (i, j) ∈ index_pairs arr
       <-> exists s, sources !! i = Some s /\ j < src_len s.
Proof.
  intros Hrng Hinit.
  destruct (init_fields _ _ _ _ _ Hinit) as (_ & Hn & _ & _ & Hp).
  assert (index_pairs arr ≡ₚ enumerate_pairs 0 sources) as Hperm.
  { rewrite Hp. destruct shuf; [apply Hrng | done]. }
  split; [by eapply length_index_pairs|].
  intros i j. rewrite Hperm, elem_of_enumerate_pairs, Nat.sub_0_r.
  split; [by intros [_ ?] | intros ?; split; [lia | done]].
Qed.

(** X2. The index map of a composite: with a generator that permutes, it
    holds each element of each source exactly once, so that the length of
    the composite is the sum of the lengths of the sources. *)
Theorem index_map_bijection (rng : list (nat * nat) -> list (nat * nat))
    (sources : list Source) (classes : option (list Z)) (shuf : bool)
    (arr : t) :
  (forall l, rng l ≡ₚ l) ->
  __init__ rng sources classes shuf = Ok arr ->
  __len__ arr = sum_list (src_len <$> sources)
  /\ length (index_pairs arr) = __len__ arr
  /\ NoDup (index_pairs arr)
  /\ forall i j, (i, j) ∈ index_pairs arr
       <-> exists s, sources !! i = Some s /\ j < src_len s.
Proof.
  intros Hrng Hinit.
  destruct (init_fields _ _ _ _ _ Hinit) as (_ & Hn & _ & _ & Hp).
  assert (index_pairs arr ≡ₚ enumerate_pairs 0 sources) as Hperm.
  { rewrite Hp. destruct shuf; [apply Hrng | done]. }
  split; [done|]. split; [by eapply length_index_pairs|].
  split.
  - rewrite Hperm. apply NoDup_enumerate_pairs.
  - intros i j. rewrite Hperm, elem_of_enumerate_pairs, Nat.sub_0_r.
    split; [by intros [_ ?] | intros ?; split; [lia | done]].
Qed.

Lemma index_map_bijection_witness :
  exists arr,
    __init__ rng_rev
      [array_source mat2; array_source mat3]
      None true = Ok arr
    /\ __len__ arr
       = sum_list (src_len <$> [array_source mat2;
                                array_source mat3])
    /\ length (index_pairs arr) = __len__ arr
    /\ NoDup (index_pairs arr)
    /\ forall i j, (i, j) ∈ index_pairs arr
         <-> exists s, [array_source mat2;
                        array_source mat3] !! i = Some s
                       /\ j < src_len s.
Proof.
  eexists; split; [reflexivity|].
  apply (index_map_bijection rng_rev _ None true).
  - intros l. symmetry. apply Permutation_rev.
  - reflexivity.
Defined.

(** ** Integer keys *)

Lemma sum_take_lt (sources : list Source) (k j : nat) (s : Source) :
  sources !! k = Some s -> j < src_len s ->
  offset sources k + j < sum_list (src_len <$> sources).
Proof.
  revert k; induction sources as [|s' rest IH]; intros k Hs Hj; [done|].
  destruct k as [|k]; unfold offset in *; simpl in *.
  - injection Hs as ->. lia.
  - specialize (IH k Hs Hj). unfold fmap in *. lia.
Qed.

(** X3. Without shuffling, element [j] of source [k] sits at position
    [len(source_0) + ... + len(source_(k-1)) + j] of the composite, and
    the integer key of that position reads it from that source with the
    key [j]. *)
Theorem getitem_unshuffled (rng : list (nat * nat) -> list (nat * nat))
    (sources : list Source) (classes : option (list Z)) (arr : t)
    (k j : nat) (s : Source) :
  __init__ rng sources classes false = Ok arr ->
  sources !! k = Some s ->
  j < src_len s ->
  offset sources k + j < __len__ arr
  /\ __getitem__ arr (KInt (Z.of_nat (offset sources k + j)))
     = PArr <$> src_getitem s (KInt (Z.of_nat j)).
Proof.
  intros Hinit Hs Hj.
  destruct (init_fields _ _ _ _ _ Hinit) as (Hsrc & Hn & _ & _ & Hp).
  pose proof (sum_take_lt _ _ _ _ Hs Hj) as Hlt.
  split; [unfold __len__; by rewrite Hn|].
  rewrite getitem_int. f_equal. unfold _get_element.
  rewrite Hp, (list_index_nat _ _ (0 + k, j))
    by (by apply (enumerate_pairs_lookup _ _ _ _ s)).
  cbn [mbind result_bind fst snd]. unfold list_get.
  by rewrite Hsrc, Nat.add_0_l, Hs.
Qed.

Lemma getitem_unshuffled_witness :
  exists arr,
    __init__ rng_id
      [array_source mat2; array_source mat3]
      None false = Ok arr
    /\ offset [array_source mat2;
               array_source mat3] 1 + 2 < __len__ arr
    /\ __getitem__ arr
         (KInt (Z.of_nat
                  (offset [array_source mat2;
                           array_source mat3] 1 + 2)))
       = PArr <$> src_getitem (array_source mat3)
                    (KInt (Z.of_nat 2)).
Proof.
  eexists; split; [reflexivity|].
  apply (getitem_unshuffled rng_id _ None _ 1 2).
  - reflexivity.
  - reflexivity.
  - simpl. lia.
Defined.

(** X4. An integer key outside [-len, len) raises [IndexError]; one inside
    reads one element of one source, with the position inside the source
    as key. *)
Theorem getitem_int_range (rng : list (nat * nat) -> list (nat * nat))
    (sources : list Source) (classes : option (list Z)) (shuf : bool)
    (arr : t) (i : Z) :
  (forall l, rng l ≡ₚ l) ->
  __init__ rng sources classes shuf = Ok arr ->
  ((i < - Z.of_nat (__len__ arr) \/ Z.of_nat (__len__ arr) <= i)%Z ->
   __getitem__ arr (KInt i) = Raise IndexError)
  /\ ((- Z.of_nat (__len__ arr) <= i < Z.of_nat (__len__ arr))%Z ->
      exists k j s, sources !! k = Some s /\ j < src_len s
        /\ __getitem__ arr (KInt i)
           = PArr <$> src_getitem s (KInt (Z.of_nat j))).
Proof.
  intros Hrng Hinit.
  destruct (index_pairs_facts rng sources classes shuf arr Hrng Hinit)
    as (Hlen & Hin).
  destruct (init_fields _ _ _ _ _ Hinit) as (Hsrc & _).
  rewrite getitem_int. unfold _get_element. rewrite <- Hlen.
  split.
  - intros Hout. by rewrite list_index_outside.
  - intros Hin_range.
    destruct (list_index_inside _ _ Hin_range) as ([k j] & -> & Hp).
    apply Hin in Hp as (s & Hs & Hj).
    exists k, j, s. split; [done|]. split; [done|].
    cbn [mbind result_bind fst snd]. unfold list_get.
    by rewrite Hsrc, Hs.
Qed.

Lemma getitem_int_range_witness :
  exists arr,
    __init__ rng_rev two_mats None true = Ok arr
    /\ __getitem__ arr (KInt 5) = Raise IndexError
    /\ exists k j s,
         two_mats !! k = Some s
         /\ j < src_len s
         /\ __getitem__ arr (KInt (-5))
            = PArr <$> src_getitem s (KInt (Z.of_nat j)).
Proof.
  eexists; split; [reflexivity|].
  split.
  - apply (getitem_int_range rng_rev two_mats None true _ 5).
    + intros l. symmetry. apply Permutation_rev.
    + reflexivity.
    + simpl. lia.
  - apply (getitem_int_range rng_rev two_mats None true
             _ (-5)).
    + intros l. symmetry. apply Permutation_rev.
    + reflexivity.
    + simpl. lia.
Defined.

(** ** Labels *)





(** ** Iteration *)

Lemma py_list_iter_pairs (self : t) (pairs : list (nat * nat)) :
  py_list (iter_pairs self pairs) = for_each (read_pair self) pairs.
Proof.
  induction pairs as [|p pairs IH]; simpl; [done|].
  destruct (read_pair self p) as [a|e]; simpl; [|done].
  rewrite <- IH. by destruct (iter_pairs self pairs) as [ys [e|]].
Qed.

(** X6. Iterating over a composite yields what the integer keys
    [0, 1, ..., len - 1] return, in that order: [list(arr)] is the list of
    the [arr[n]], and raises what the first failing [arr[n]] raises. *)
Theorem iter_agrees_with_getitem (rng : list (nat * nat) -> list (nat * nat))
    (sources : list Source) (classes : option (list Z)) (shuf : bool)
    (arr : t) :
  (forall l, rng l ≡ₚ l) ->
  __init__ rng sources classes shuf = Ok arr ->
  py_list (__iter__ arr)
  = lookup_rows arr ((fun n => KInt (Z.of_nat n)) <$> seq 0 (__len__ arr)).
Proof.
  intros Hrng Hinit.
  pose proof (length_index_pairs rng _ _ _ _ Hinit Hrng) as Hlen.
  unfold __iter__, lookup_rows. rewrite py_list_iter_pairs, <- Hlen.
  rewrite for_each_fmap. symmetry.
  apply for_each_seq_lookup.
  intros k p Hp. rewrite Nat.add_0_l, getitem_int, fmap_as_array.
  unfold _get_element. by rewrite (list_index_nat _ _ _ Hp).
Qed.

Lemma iter_agrees_with_getitem_witness :
  exists arr,
    __init__ rng_rev two_mats None true = Ok arr
    /\ py_list (__iter__ arr)
       = lookup_rows arr ((fun n => KInt (Z.of_nat n)) <$> seq 0 (__len__ arr)).
Proof.
  eexists; split; [reflexivity|].
  apply (iter_agrees_with_getitem rng_rev two_mats None true).
  - intros l. symmetry. apply Permutation_rev.
  - reflexivity.
Defined.

(** ** Slices and the ellipsis *)

Lemma key_shapes_cons_no_len (k : key) (ks : list key) :
  has_len k = false -> key_shapes (k :: ks) = key_shapes ks.
Proof.
  intros Hk. unfold key_shapes. rewrite filter_cons_False; [done|].
  by rewrite Hk.
Qed.



(** X8. The ellipsis stands for the full slice of the first axis: alone, and
    at the head of a tuple, where it is kept for the sources in front of
    the remainder when the remainder is shorter than the other axes. *)
Theorem getitem_ellipsis (arr : t) :
  __getitem__ arr KEllipsis = __getitem__ arr (KSlice None None None)
  /\ forall rem,
       __getitem__ arr (KTuple (KEllipsis :: rem))
       = __getitem__ arr
           (KTuple (KSlice None None None
                      :: if decide (length rem < ndim arr - 1)
                         then KEllipsis :: rem else rem)).
Proof.
  split; [done|]. intros rem.
  unfold __getitem__, split_key.
  cbn [has_len key_items mbind result_bind].
  assert (key_shapes
            (KSlice None None None
               :: (if decide (length rem < ndim arr - 1)
                   then KEllipsis :: rem else rem))
          = key_shapes rem) as ->.
  { rewrite key_shapes_cons_no_len by done.
    case_decide; [by rewrite key_shapes_cons_no_len | done]. }
  rewrite key_shapes_cons_no_len by done.
  destruct (decide (Forall _ (key_shapes rem))); [|done].
  destruct (decide (ndim arr < _)); [done|].
  rewrite !orb_true_r. cbn -[range]. by case_decide.
Qed.

(** ** Lists and arrays of integers *)

Lemma get_block_seq_ints (arr : t) (is_seq : bool) (zs : list Z) :
  is_ok (lookup_rows arr (KInt <$> zs)) = true ->
  _get_block arr is_seq (KInt <$> zs) None = stack_of arr (KInt <$> zs).
Proof.
  intros Hok. apply get_block_stack_of; [done | | done].
  intros j v k Hv Hk. rewrite Hv in Hk. injection Hk as <-.
  apply list_lookup_fmap_Some in Hv as (z & -> & _).
  assert (row_key_remainder is_seq None j = Ok None) as ->
    by (by destruct is_seq).
  by rewrite ret_bind, getitem_int, fmap_as_array.
Qed.



(** ** Keys that are refused *)

(** X10. Keys [__getitem__] refuses, whatever the composite: an object that
    is neither an integer, a slice nor sized; a slice of step 0; the empty
    tuple; a non-boolean array of more than one dimension; sized
    components of different shapes; more sized components than the
    composite has dimensions. *)
Theorem getitem_refused_keys (arr : t) :
  __getitem__ arr KOpaque = Raise IndexError
  /\ (forall start stop,
        __getitem__ arr (KSlice start stop (Some 0%Z)) = Raise ValueError)
  /\ __getitem__ arr (KTuple []) = Raise IndexError
  /\ (forall dt sh data,
        dt <> dt_bool -> 1 < length sh ->
        __getitem__ arr (KArray dt sh data) = Raise IndexError)
  /\ (forall ks,
        ~ Forall (fun s => Some s = head (key_shapes ks)) (key_shapes ks) ->
        __getitem__ arr (KTuple ks) = Raise IndexError
        /\ __getitem__ arr (KList ks) = Raise IndexError)
  /\ (forall ks,
        ndim arr < length (key_shapes ks) ->
        __getitem__ arr (KTuple ks) = Raise IndexError
        /\ __getitem__ arr (KList ks) = Raise IndexError).
Proof.
  split; [done|]. split; [done|]. split; [done|]. split; [|split].
  - intros dt sh data Hdt Hsh. unfold __getitem__, split_key. simpl.
    rewrite decide_False by done. by rewrite decide_True.
  - intros ks Hks. split; unfold __getitem__, split_key;
      cbn [has_len key_items mbind result_bind];
      by rewrite decide_False.
  - intros ks Hks. split; unfold __getitem__, split_key;
      cbn [has_len key_items mbind result_bind];
      (case_decide; [|done]); by rewrite decide_True.
Qed.

Lemma getitem_refused_keys_witness :
  exists arr,
    __init__ rng_id two_mats None false = Ok arr
    /\ __getitem__ arr (KArray dt_int64 [1; 2] [0; 1]%Z) = Raise IndexError
    /\ __getitem__ arr (KTuple [KList [KInt 0]; KList [KInt 0; KInt 1]])
       = Raise IndexError
    /\ __getitem__ arr (KTuple [KList [KInt 0]; KList [KInt 0]; KList [KInt 0]])
       = Raise IndexError.
Proof.
  eexists; split; [reflexivity|].
  match goal with
  | |- __getitem__ ?arr _ = _ /\ _ =>
      destruct (getitem_refused_keys arr) as (_ & _ & _ & Harr & Hshape & Hmany)
  end.
  split; [|split].
  - apply Harr; [discriminate | simpl; lia].
  - apply (Hshape [KList [KInt 0]; KList [KInt 0; KInt 1]]).
    intros HF. apply Forall_cons in HF as [_ HF].
    apply Forall_cons in HF as [HF _]. discriminate.
  - apply (Hmany [KList [KInt 0]; KList [KInt 0]; KList [KInt 0]]).
    simpl. lia.
Defined.

(** ** The block built by [_get_block] *)

Section stacking.
Variables (dt : DType) (sh : list nat) (n : nat).

Lemma stack_from_rows (elems : list ndarray) :
  forall (i : nat) (pre : list Z),
    i + List.length elems = n ->
    List.length pre = i * prod_list sh ->
    Forall (fun e => nd_shape e = sh /\ wf_array e) elems ->
    stack_from dt n i elems
      (Some (NDArray dt (n :: sh)
               (pre ++ replicate ((n - i) * prod_list sh) 0%Z)))
    = Ok (Some (NDArray dt (n :: sh) (pre ++ cells dt elems))).
Proof.
  induction elems as [|e elems IH]; intros i pre Hn Hpre Hall.
  - simpl in *. replace (n - i) with 0 by lia. done.
  - apply Forall_cons in Hall as [[Hsh Hwf] Hall]. simpl in Hn.
    cbn [stack_from]. unfold place_row, set_row. cbn [nd_shape nd_dtype nd_data].
    rewrite decide_True by lia.
    unfold wf_array in Hwf. rewrite Hsh in *.
    rewrite broadcast_to_same by done. cbn [mbind result_bind].
    rewrite take_app_length' by done.
    replace ((i + 1) * prod_list sh)
      with (List.length pre + prod_list sh) by lia.
    rewrite drop_app_add', drop_replicate by done.
    replace ((n - i) * prod_list sh - prod_list sh)
      with ((n - S i) * prod_list sh) by nia.
    rewrite (app_assoc pre). 
    rewrite (IH (S i) (pre ++ (astype dt <$> nd_data e))); [| lia | | done].
    + by rewrite cells_cons, <- app_assoc.
    + rewrite length_app, length_fmap, Hwf. lia.
Qed.

(** Stacking [n >= 1] rows of one shape gives an array of type [dt] and
    shape [(n,) + shape of a row], whose cells are those of the rows, one
    row after the other, each converted to [dt]. *)
Lemma stack_same_shape (elems : list ndarray) :
  elems <> [] ->
  List.length elems = n ->
  Forall (fun e => nd_shape e = sh /\ wf_array e) elems ->
  stack dt elems = Ok (PArr (NDArray dt (n :: sh) (cells dt elems))).
Proof.
  intros Hne Hn Hall. unfold stack. rewrite Hn.
  destruct elems as [|e elems]; [done|].
  assert (nd_shape e = sh) as Hsh
    by (by apply Forall_cons in Hall as [[? _] _]).
  change (stack_from dt n 0 (e :: elems) None)
    with (stack_from dt n 0 (e :: elems) (Some (zeros (n :: nd_shape e) dt))).
  rewrite Hsh.
  replace (zeros (n :: sh) dt)
    with (NDArray dt (n :: sh) ([] ++ replicate ((n - 0) * prod_list sh) 0%Z))
    by (unfold zeros; simpl; by rewrite Nat.sub_0_r).
  by rewrite stack_from_rows.
Qed.
End stacking.

(** X11. What a block holds: when the single lookups of a non-empty list of
    integers return well-formed arrays of one shape, the list as key
    returns an array of the type of the composite and of shape
    [(number of keys,) + shape of a row], whose cells are those of the
    rows in the order of the key, converted to the type of the
    composite. *)
Theorem getitem_block (arr : t) (zs : list Z) (elems : list ndarray)
    (sh : list nat) :
  lookup_rows arr (KInt <$> zs) = Ok elems ->
  zs <> [] ->
  Forall (fun e => nd_shape e = sh /\ wf_array e) elems ->
  __getitem__ arr (KList (KInt <$> zs))
  = Ok (PArr (NDArray (dtype arr) (List.length zs :: sh)
                (cells (dtype arr) elems))).
Proof.
  intros Hl Hne Hall.
  pose proof (lookup_rows_length _ _ _ Hl) as Hlen.
  rewrite length_fmap in Hlen.
  unfold __getitem__, split_key.
  cbn [has_len key_items mbind result_bind].
  rewrite (key_shapes_no_len _ (has_len_ints zs)).
  rewrite decide_True by constructor.
  rewrite decide_False by (simpl; lia).
  cbn. rewrite get_block_seq_ints by (by rewrite Hl).
  unfold stack_of. rewrite Hl. cbn [mbind result_bind].
  apply stack_same_shape; [|done|done].
  intros ->. destruct zs; [done | discriminate].
Qed.

Lemma getitem_block_witness :
  exists arr,
    __init__ rng_id two_mats None false = Ok arr
    /\ __getitem__ arr (KList (KInt <$> [4; 0]%Z))
       = Ok (PArr (NDArray (dtype arr) (List.length [4; 0]%Z :: [2])
                     (cells (dtype arr)
                        [NDArray dt_int64 [2] [24; 25]%Z;
                         NDArray dt_int64 [2] [10; 11]%Z]))).
Proof.
  eexists; split; [reflexivity|].
  apply getitem_block.
  - reflexivity.
  - discriminate.
  - repeat constructor.
Defined.

End multi_source_array_facts.

(* ================================================================== *)
(** * Properties of the array writers                                   *)
(* ================================================================== *)

Module writer_facts.
Import buffered_array_writer.

Section any_storage.
Context {S : Type} `{StorageArray S}.

Lemma cons_neq_self {A} (x : A) (l : list A) : x :: l <> l.
Proof. intros E. apply (f_equal List.length) in E. simpl in E. lia. Qed.

(** For a batch of elements (shape [(n,) + data_element_shape]) neither
    test of lines 224-227 holds, and [data_len] stays unbound. *)
Lemma data_len_batched (self : t S) (data : ndarray) (n : nat) :
  nd_shape data = n :: data_element_shape self ->
  data_len self data = Ok None.
Proof.
  intros Hsh. unfold data_len, shape_from_1. rewrite Hsh.
  rewrite decide_False by apply cons_neq_self. simpl.
  by rewrite decide_False by apply cons_neq_self.
Qed.

(** Hence no write of a batch ever returns. *)
Lemma buffered_write_batched (self : t S) (data : ndarray) (n : nat) :
  nd_shape data = n :: data_element_shape self ->
  exists e, buffered_write data self = (Raise e, self)
            /\ (e = EOFError <-> length self = Some (storage_array_ptr self)).
Proof.
  intros Hsh. unfold buffered_write.
  rewrite decide_False by (rewrite Hsh; simpl; tauto).
  rewrite (data_len_batched _ _ _ Hsh).
  destruct (decide (length self = Some (storage_array_ptr self))).
  - exists EOFError. tauto.
  - destruct (decide (nd_dtype data ≠ dtype self)); eexists;
      (split; [reflexivity|]); split; intros; congruence.
Qed.

(** A single element written to a writer whose storage holds [length]
    rows already is refused. *)
Lemma buffered_write_full (self : t S) (data : ndarray) :
  nd_shape data = data_element_shape self ->
  length self = Some (storage_array_ptr self) ->
  buffered_write data self = (Raise EOFError, self).
Proof.
  intros Hsh Hfull. unfold buffered_write, data_len.
  rewrite decide_False by tauto.
  rewrite decide_True by done. by rewrite decide_True.
Qed.

Lemma flush_buffer_raise (w w1 : t S) (e : exn) :
  flush_buffer w = (Raise e, w1) -> w1 = w.
Proof.
  unfold flush_buffer. destruct (decide (0 < buffer_ptr w)); [|congruence].
  destruct (sa_setslice _ _ _ _); congruence.
Qed.

(** C10. After a call of [flush_buffer] that returns, [buffer_ptr] is
    0, and a second call returns as well and leaves every field of the
    writer (buffer_ptr, storage_array_ptr, the storage array) as it
    was. *)
Theorem flush_buffer_idempotent (w w1 : t S) :
  flush_buffer w = (Ok (), w1) ->
  buffer_ptr w1 = 0 /\ flush_buffer w1 = (Ok (), w1).
Proof.
  unfold flush_buffer at 1.
  destruct (decide (0 < buffer_ptr w)) as [Hpos|Hzero].
  - destruct (sa_setslice _ _ _ _) as [st|e]; [|discriminate].
    intros [= <-]. split; [done|]. reflexivity.
  - intros [= <-]. split; [lia|]. unfold flush_buffer.
    by rewrite decide_False.
Qed.
End any_storage.

Lemma flush_buffer_idempotent_witness :
  let w := snd (buffered_write (NDArray dt_int64 [] [7%Z])
                  (__init__ (zeros [3] dt_int64) [] dt_int64 2 None)) in
  buffer_ptr w = 1
  /\ buffer_ptr (snd (flush_buffer w)) = 0
  /\ flush_buffer (snd (flush_buffer w)) = (Ok (), snd (flush_buffer w)).
Proof.
  split; [reflexivity|].
  apply (flush_buffer_idempotent
           (snd (buffered_write (NDArray dt_int64 [] [7%Z])
                   (__init__ (zeros [3] dt_int64) [] dt_int64 2 None)))).
  vm_compute. reflexivity.
Defined.

(** C7. A writer declared with [length = 3] (buffer of 5 rows, nothing
    stored yet) is handed four elements in one call: the call does not
    raise [EOFError]; the guard of line 230 compares [length] with
    [storage_array_ptr] only, and the call ends in [UnboundLocalError]
    at line 239, [data_len] never having been bound. *)
Theorem buffered_write_beyond_capacity :
  let w := __init__ (zeros [3] dt_int64) [] dt_int64 5 (Some 3) in
  buffered_write (NDArray dt_int64 [4] [1; 2; 3; 4]%Z) w
  = (Raise UnboundLocalError, w).
Proof. vm_compute. reflexivity. Qed.

(** C8. Whatever its arguments, the constructor of [bcolz_array_writer]
    raises [NameError]: [save_pathsavepath] is bound neither as a
    parameter nor at module level, and it is read before [bcolz.zeros]
    is called. *)
Theorem bcolz_init_raises_NameError
    (S : Type) (bcolz_zeros : list nat -> string -> bool -> result S)
    (data_element_shape : list nat) (dt : DType) (batch_size : nat)
    (save_path : string) (length : option nat) (append : bool) :
  bcolz_array_writer.__init__ bcolz_zeros data_element_shape dt batch_size
    save_path length append = Raise NameError.
Proof. unfold bcolz_array_writer.__init__. vm_compute. reflexivity. Qed.

(** ** The checks of [buffered_write] *)

Import Contract WriterContract Py_facts Np_facts.

Section write_checks.
Context {Sto : Type} `{StorageArray Sto}.

Lemma data_len_ok (self : t Sto) (data : ndarray) :
  ~ (nd_shape data ≠ data_element_shape self
     /\ tail (nd_shape data) ≠ data_element_shape self) ->
  data_len self data
  = Ok (if decide (nd_shape data = data_element_shape self) then Some 1
        else None).
Proof.
  intros Hsh. unfold data_len, shape_from_1.
  case_decide as Heq; [done|].
  destruct (nd_shape data) as [|n rowshape] eqn:E.
  - exfalso. apply Hsh. by split.
  - simpl. rewrite decide_False; [done|].
    intros Hsh1. apply Hsh. split; [done|]. simpl. intros Ht.
    rewrite <- Hsh1 in Ht. apply (f_equal List.length) in Ht. simpl in Ht. lia.
Qed.

Lemma buffered_write_eof (self : t Sto) (data : ndarray) :
  ~ (nd_shape data ≠ data_element_shape self
     /\ tail (nd_shape data) ≠ data_element_shape self) ->
  length self = Some (storage_array_ptr self) ->
  buffered_write data self = (Raise EOFError, self).
Proof.
  intros Hsh Hfull. unfold buffered_write.
  rewrite decide_False, data_len_ok by done. by rewrite decide_True.
Qed.

Lemma buffered_write_ok_inv (self self' : t Sto) (data : ndarray) :
  buffered_write data self = (Ok (), self') ->
  nd_shape data = data_element_shape self
  /\ nd_dtype data = dtype self
  /\ length self ≠ Some (storage_array_ptr self).
Proof.
  unfold buffered_write.
  case_decide as Hsh; [done|]. rewrite data_len_ok by done.
  case_decide as Hfull; [done|].
  case_decide as Hdt; [done|].
  case_decide as Helem; [|done].
  intros _. by repeat split.
Qed.

(** X12. The checks of [buffered_write], in the order they are made: a value
    that has neither the shape of an element nor that of a batch of
    elements raises [ValueError]; otherwise a writer whose storage pointer
    has reached [length] raises [EOFError]; otherwise a value of another
    type raises [TypeError]; otherwise a batch raises
    [UnboundLocalError].  In each case the writer is left as it was, and
    a call that returns was given a single element. *)
Theorem buffered_write_checks (self : t Sto) (data : ndarray) :
  let bad_shape := nd_shape data ≠ data_element_shape self
                   /\ tail (nd_shape data) ≠ data_element_shape self in
  let full := length self = Some (storage_array_ptr self) in
  (bad_shape -> buffered_write data self = (Raise ValueError, self))
  /\ (~ bad_shape -> full ->
      buffered_write data self = (Raise EOFError, self))
  /\ (~ bad_shape -> ~ full -> nd_dtype data ≠ dtype self ->
      buffered_write data self = (Raise TypeError, self))
  /\ (~ bad_shape -> ~ full -> nd_dtype data = dtype self ->
      nd_shape data ≠ data_element_shape self ->
      buffered_write data self = (Raise UnboundLocalError, self))
  /\ (forall self', buffered_write data self = (Ok (), self') ->
      nd_shape data = data_element_shape self
      /\ nd_dtype data = dtype self /\ ~ full).
Proof.
  intros bad_shape full. unfold bad_shape, full.
  split; [|split; [|split; [|split]]].
  - intros Hbad. unfold buffered_write. by rewrite decide_True.
  - apply buffered_write_eof.
  - intros Hsh Hfull Hdt. unfold buffered_write.
    rewrite decide_False, data_len_ok by done.
    rewrite decide_False by done. by rewrite decide_True.
  - intros Hsh Hfull Hdt Hbatch. unfold buffered_write.
    rewrite decide_False, data_len_ok by done.
    rewrite decide_False by done.
    rewrite decide_False by (intros ?; congruence).
    by rewrite decide_False.
  - intros self'. apply buffered_write_ok_inv.
Qed.
End write_checks.

Lemma buffered_write_checks_witness :
  let w := __init__ (zeros [3] dt_int64) [] dt_int64 2 (Some 0) in
  buffered_write (NDArray dt_int64 [2; 2] [1; 2; 3; 4]%Z) w
  = (Raise ValueError, w)
  /\ buffered_write (NDArray dt_int64 [] [1%Z]) w = (Raise EOFError, w).
Proof.
  intros w.
  destruct (buffered_write_checks w (NDArray dt_int64 [2; 2] [1; 2; 3; 4]%Z))
    as (Hvalue & _).
  destruct (buffered_write_checks w (NDArray dt_int64 [] [1%Z]))
    as (_ & Heof & _).
  split.
  - apply Hvalue. split; discriminate.
  - apply Heof; [|reflexivity]. intros [Hne _]. by apply Hne.
Defined.

(** ** Bookkeeping *)

Section counting.
Context {Sto : Type} `{StorageArray Sto}.
Variables (bs : nat) (elem : list nat) (dt : DType) (len : option nat).

Lemma flush_buffer_fields (w w' : t Sto) :
  flush_buffer w = (Ok (), w') ->
  batch_size w' = batch_size w
  /\ data_element_shape w' = data_element_shape w
  /\ dtype w' = dtype w /\ length w' = length w
  /\ buffer w' = buffer w
  /\ storage_array_ptr w' = storage_array_ptr w + buffer_ptr w
  /\ buffer_ptr w' = 0.
Proof.
  unfold flush_buffer. case_decide as Hbp.
  - destruct (sa_setslice _ _ _ _); [|done]. intros [= <-]. simpl. done.
  - intros [= <-]. repeat split; lia.
Qed.

Lemma set_row_shape (a a' : ndarray) (i : nat) (v : ndarray) :
  set_row a i v = Ok a' ->
  nd_shape a' = nd_shape a /\ i < hd 0 (nd_shape a).
Proof.
  unfold set_row. destruct (nd_shape a) as [|n rowshape] eqn:E; [done|].
  case_decide; [|done].
  destruct (broadcast_to _ _ _); [|done]. simpl. intros [= <-]. done.
Qed.

Lemma mod_succ (k : nat) :
  0 < bs ->
  (k + 1) mod bs = if decide (k mod bs + 1 = bs) then 0 else k mod bs + 1.
Proof.
  intros Hbs.
  pose proof (Nat.div_mod_eq k bs) as Hk.
  pose proof (Nat.mod_upper_bound k bs ltac:(lia)) as Hlt.
  case_decide as Hfull.
  - symmetry. apply (Nat.mod_unique _ _ (k / bs + 1)); nia.
  - symmetry. apply (Nat.mod_unique _ _ (k / bs)); nia.
Qed.

(** One iteration of the loop: the element is in the buffer, and the
    buffer has been flushed if that filled it. *)
Lemma write_one_accepts (k : nat) (w w1 : t Sto) (data : ndarray) :
  accepted bs elem dt len k w ->
  len ≠ Some k ->
  write_one data w = (Ok (), w1) ->
  batch_size w1 = bs /\ data_element_shape w1 = elem /\ dtype w1 = dt
  /\ length w1 = len /\ nd_shape (buffer w1) = bs :: elem
  /\ storage_array_ptr w1 + buffer_ptr w1 = k + 1
  /\ buffer_ptr w1 = (k + 1) mod bs.
Proof.
  intros [Hbs Helem Hdt Hlen Hbuf Hcount Hroom Hwithin Hptr] Hk.
  rewrite decide_False in Hptr by done.
  pose proof (mod_succ k ltac:(lia)) as Hmod.
  unfold write_one.
  destruct (set_row (buffer w) (buffer_ptr w) data) as [buffer'|] eqn:Hset;
    [|done].
  apply set_row_shape in Hset as [Hshape' _].
  cbn [buffer_ptr batch_size].
  destruct (decide (buffer_ptr w + 1 = batch_size w)) as [Hflush|Hno].
  - intros Hf. apply flush_buffer_fields in Hf
      as (Hf1 & Hf2 & Hf3 & Hf4 & Hf5 & Hf6 & Hf7). simpl in *.
    rewrite decide_True in Hmod by lia.
    repeat split; try congruence; lia.
  - intros [= <-]. simpl.
    rewrite decide_False in Hmod by lia.
    repeat split; try congruence; lia.
Qed.

(** A write that returns has accepted one more element. *)
Lemma buffered_write_accepts (k : nat) (w w' : t Sto) (data : ndarray) :
  accepted bs elem dt len k w ->
  buffered_write data w = (Ok (), w') ->
  accepted bs elem dt len (k + 1) w'.
Proof.
  intros Hacc Hw.
  pose proof Hacc as [Hbs Helem Hdt Hlen Hbuf Hcount Hroom Hwithin Hptr].
  destruct (buffered_write_ok_inv _ _ _ Hw) as (Hshape & Hdtype & Hfull).
  assert (len ≠ Some k) as Hk.
  { intros Heq. rewrite decide_True in Hptr by done.
    apply Hfull. rewrite Hlen, Heq. f_equal. lia. }
  assert (forall L, len = Some L -> k + 1 <= L) as Hwithin'.
  { intros L HL. specialize (Hwithin L HL).
    destruct (decide (k = L)) as [->|]; [done | lia]. }
  assert (0 < bs) as Hpos by lia.
  pose proof (Nat.mod_upper_bound (k + 1) bs ltac:(lia)) as Hlt.
  revert Hw. unfold buffered_write.
  rewrite decide_False by tauto. unfold data_len.
  rewrite decide_True by done. rewrite decide_False by done.
  rewrite decide_False by (intros ?; congruence).
  rewrite decide_True by done. cbn [write_all].
  destruct (write_one data w) as [[[]|e] w1] eqn:Hone; [|done].
  apply (write_one_accepts k) in Hone
    as (H1 & H2 & H3 & H4 & H5 & H6 & H7); [|done|done].
  rewrite H4, H6.
  destruct (decide (len = Some (k + 1))) as [Hend|Hend].
  - intros Hf. apply flush_buffer_fields in Hf
      as (Hg1 & Hg2 & Hg3 & Hg4 & Hg5 & Hg6 & Hg7).
    constructor; try congruence; try lia; try done.
    by rewrite decide_True.
  - intros [= <-].
    constructor; try congruence; try lia; try done.
    by rewrite decide_False.
Qed.

Lemma accepted_init (storage : Sto) :
  0 < bs -> accepted bs elem dt len 0 (__init__ storage elem dt bs len).
Proof.
  intros Hbs. constructor; simpl; try done; try lia.
  case_decide; [done|]. by rewrite Nat.Div0.mod_0_l.
Qed.

Lemma writes_accepted (ds : list ndarray) :
  forall (k : nat) (w w' : t Sto),
    accepted bs elem dt len k w ->
    writes ds w = (Ok (), w') ->
    accepted bs elem dt len (k + List.length ds) w'.
Proof.
  induction ds as [|d ds IH]; intros k w w' Hacc Hw; simpl in *.
  - injection Hw as <-. by rewrite Nat.add_0_r.
  - destruct (buffered_write d w) as [[[]|e] w1] eqn:Hd; [|done].
    replace (k + Datatypes.S (List.length ds))
      with (k + 1 + List.length ds) by lia.
    eapply IH; [|done]. by eapply buffered_write_accepts.
Qed.

(** X13. The bookkeeping of a writer.  After a series of writes that all
    returned, on a writer with a buffer of [bs >= 1] rows:
    [storage_array_ptr + buffer_ptr] is the number of elements written,
    the buffer is never full, a declared [length] is never exceeded, and
    the buffer holds [k mod bs] elements, or none once [length] is
    reached; from then on every further write raises [EOFError]. *)
Theorem writes_bookkeeping (storage : Sto) (ds : list ndarray) (w' : t Sto) :
  0 < bs ->
  writes ds (__init__ storage elem dt bs len) = (Ok (), w') ->
  storage_array_ptr w' + buffer_ptr w' = List.length ds
  /\ buffer_ptr w' < bs
  /\ buffer_ptr w' = (if decide (len = Some (List.length ds)) then 0
                      else List.length ds mod bs)
  /\ (forall L, len = Some L -> List.length ds <= L)
  /\ (len = Some (List.length ds) ->
      forall data,
        nd_shape data = elem \/ tail (nd_shape data) = elem ->
        buffered_write data w' = (Raise EOFError, w')).
Proof.
  intros Hbs Hw.
  pose proof (writes_accepted ds 0 _ _ (accepted_init storage Hbs) Hw) as Hacc.
  simpl in Hacc.
  destruct Hacc as [Hb He Hd Hl Hbuf Hcount Hroom Hwithin Hptr].
  repeat split; try done.
  intros Hfull data Hshape.
  rewrite decide_True in Hptr by done.
  apply buffered_write_eof.
  - rewrite He. intros [? ?]. destruct Hshape; done.
  - rewrite Hl, Hfull. f_equal. lia.
Qed.
End counting.

Lemma writes_bookkeeping_witness :
  exists w',
    writes [NDArray dt_int64 [] [7%Z]; NDArray dt_int64 [] [8%Z];
            NDArray dt_int64 [] [9%Z]]
      (__init__ (zeros [3] dt_int64) [] dt_int64 2 (Some 3)) = (Ok (), w')
    /\ storage_array_ptr w' + buffer_ptr w' = 3
    /\ buffer_ptr w' < 2
    /\ buffer_ptr w' = (if decide (Some 3 = Some 3) then 0 else 3 mod 2)
    /\ (forall L, Some 3 = Some L -> 3 <= L)
    /\ (Some 3 = Some 3 ->
        forall data,
          nd_shape data = [] \/ tail (nd_shape data) = [] ->
          buffered_write data w' = (Raise EOFError, w')).
Proof.
  eexists. split; [vm_compute; reflexivity|].
  apply (writes_bookkeeping 2 [] dt_int64 (Some 3) (zeros [3] dt_int64)
           [NDArray dt_int64 [] [7%Z]; NDArray dt_int64 [] [8%Z];
            NDArray dt_int64 [] [9%Z]]).
  - lia.
  - vm_compute. reflexivity.
Defined.

(** ** Writing into a numpy array *)

Section numpy_storage.
Variables (N bs : nat) (elem : list nat) (dt : DType) (len : option nat).

Abbreviation sz := (prod_list elem).
Abbreviation element := (WriterContract.element elem dt).
Abbreviation stored := (WriterContract.stored N bs elem dt).

Lemma cells_length (l : list ndarray) :
  Forall element l -> List.length (cells dt l) = List.length l * sz.
Proof.
  induction 1 as [|d l (Hsh & _ & Hwf) _ IH]; [done|].
  rewrite cells_cons, length_app, length_fmap, IH.
  unfold wf_array in Hwf. rewrite Hwf, Hsh. simpl. lia.
Qed.

Lemma flush_buffer_stored (done : list ndarray) (w : t ndarray) :
  Forall element done ->
  stored done w ->
  exists w', flush_buffer w = (Ok (), w')
    /\ stored done w'
    /\ buffer_ptr w' = 0
    /\ storage_array_ptr w' = List.length done.
Proof.
  intros Hgood Hst. pose proof Hst as [Hsto Hbsh Hbdt Hblen Hbuf Hcount Hbp HN].
  unfold flush_buffer. case_decide as Hpos.
  2:{ exists w. repeat split; try done; lia. }
  pose proof (cells_length _ (Forall_drop _ (storage_array_ptr w) _ Hgood))
    as Hlen_buf.
  pose proof (cells_length _ (Forall_take _ (storage_array_ptr w) _ Hgood))
    as Hlen_sto.
  rewrite length_drop in Hlen_buf. rewrite length_take in Hlen_sto.
  replace (List.length done - storage_array_ptr w)
    with (buffer_ptr w) in Hlen_buf by lia.
  replace (storage_array_ptr w `min` List.length done)
    with (storage_array_ptr w) in Hlen_sto by lia.
  unfold sa_setslice, ndarray_storage, rows_upto.
  rewrite Hsto, Hbsh. cbn [nd_shape nd_data nd_dtype].
  replace (buffer_ptr w `min` bs) with (buffer_ptr w) by lia.
  replace (storage_array_ptr w `min` N) with (storage_array_ptr w) by lia.
  replace (((storage_array_ptr w + buffer_ptr w) `min` N)
             `max` storage_array_ptr w)
    with (storage_array_ptr w + buffer_ptr w) by lia.
  replace (storage_array_ptr w + buffer_ptr w - storage_array_ptr w)
    with (buffer_ptr w) by lia.
  rewrite Hbuf.
  rewrite broadcast_to_same by (simpl; lia).
  cbn [mbind result_bind].
  eexists. split; [reflexivity|].
  split; [|split; [done | simpl; lia]].
  constructor; cbn [storage_array buffer buffer_ptr storage_array_ptr];
    try done; try lia.
  - f_equal.
    rewrite take_app_length' by done.
    rewrite astype_cells.
    replace ((storage_array_ptr w + buffer_ptr w) * sz)
      with (storage_array_ptr w * sz + buffer_ptr w * sz) by lia.
    rewrite drop_app_add', drop_replicate by done.
    rewrite app_assoc, <- cells_app, take_drop.
    rewrite (take_ge done) by lia.
    do 2 f_equal. nia.
  - rewrite drop_ge by lia. done.
Qed.

Lemma set_row_stored (done : list ndarray) (w : t ndarray) (d : ndarray) :
  Forall element done ->
  element d ->
  stored done w ->
  buffer_ptr w < bs ->
  List.length done < N ->
  exists buffer',
    set_row (buffer w) (buffer_ptr w) d = Ok buffer'
    /\ stored (done ++ [d])
         {| storage_array := storage_array w;
            data_element_shape := data_element_shape w;
            dtype := dtype w; batch_size := batch_size w;
            length := length w; buffer := buffer';
            buffer_ptr := buffer_ptr w + 1;
            storage_array_ptr := storage_array_ptr w |}.
Proof.
  intros Hgood (Hdsh & Hddt & Hdwf) [Hsto Hbsh Hbdt Hblen Hbuf Hcount Hbp HN]
    Hroom HltN.
  unfold wf_array in Hdwf. rewrite Hdsh in Hdwf.
  unfold set_row. rewrite Hbsh. rewrite decide_True by done.
  rewrite Hdsh, broadcast_to_same by done. cbn [mbind result_bind].
  eexists. split; [reflexivity|].
  assert (List.length (take (buffer_ptr w * sz) (nd_data (buffer w)))
          = buffer_ptr w * sz) as Htake
    by (rewrite length_take; nia).
  constructor; cbn [storage_array buffer buffer_ptr storage_array_ptr
                    nd_shape nd_data nd_dtype]; try done.
  - rewrite Hsto. do 2 f_equal. by rewrite take_app_le by lia.
  - rewrite !length_app, length_fmap, length_take, length_drop, Hdwf. nia.
  - rewrite Hbdt.
    replace ((buffer_ptr w + 1) * sz)
      with (List.length (take (buffer_ptr w * sz) (nd_data (buffer w)))
            + sz) by lia.
    rewrite take_app_add'  by done.
    rewrite take_app_length' by (by rewrite length_fmap).
    rewrite Hbuf, drop_app_le by lia.
    by rewrite cells_app, cells_cons, app_nil_r.
  - rewrite length_app. simpl. lia.
  - lia.
  - rewrite length_app. simpl. lia.
Qed.

(** A write of one element into a writer with room left returns, and
    the element is stored behind the others. *)
Lemma buffered_write_stored (done : list ndarray) (w : t ndarray)
    (d : ndarray) :
  Forall element done ->
  element d ->
  accepted bs elem dt len (List.length done) w ->
  stored done w ->
  List.length done < N ->
  len ≠ Some (List.length done) ->
  exists w', buffered_write d w = (Ok (), w') /\ stored (done ++ [d]) w'.
Proof.
  intros Hgood Hd Hacc Hst HltN Hlen.
  pose proof Hacc as [Hbs Helem Hdt Hl Hbuf Hcount Hroom Hwithin Hptr].
  pose proof Hd as (Hdsh & Hddt & Hdwf).
  assert (Forall element (done ++ [d])) as Hgood'
    by (apply Forall_app; split; [done | by constructor]).
  unfold buffered_write.
  rewrite decide_False by (rewrite Helem; tauto). unfold data_len.
  rewrite decide_True by congruence.
  rewrite decide_False.
  2:{ rewrite Hl. intros Heq. pose proof (Hwithin _ Heq) as Hle.
      apply Hlen. rewrite Heq. f_equal. lia. }
  rewrite decide_False by (intros ?; congruence).
  rewrite decide_True by done. cbn [write_all]. unfold write_one.
  destruct (set_row_stored done w d Hgood Hd Hst Hroom HltN)
    as (buffer' & -> & Hst1).
  cbn [buffer_ptr batch_size].
  set (w1 := {| storage_array := storage_array w;
                data_element_shape := data_element_shape w;
                dtype := dtype w; batch_size := batch_size w;
                length := length w; buffer := buffer';
                buffer_ptr := buffer_ptr w + 1;
                storage_array_ptr := storage_array_ptr w |}) in *.
  assert (exists w2, (if decide (buffer_ptr w + 1 = batch_size w)
                      then flush_buffer w1 else (Ok (), w1)) = (Ok (), w2)
                     /\ stored (done ++ [d]) w2
                     /\ length w2 = length w) as (w2 & -> & Hst2 & Hl2).
  { destruct (decide (buffer_ptr w + 1 = batch_size w)).
    - destruct (flush_buffer_stored _ w1 Hgood' Hst1) as (w2 & Hf & Hst2 & _).
      exists w2. split; [done|]. split; [done|].
      by apply flush_buffer_fields in Hf as (_ & _ & _ & -> & _).
    - by exists w1. }
  destruct (decide (length w2 = Some (storage_array_ptr w2 + buffer_ptr w2))).
  - destruct (flush_buffer_stored _ w2 Hgood' Hst2) as (w3 & Hf & Hst3 & _).
    by exists w3.
  - by exists w2.
Qed.

Lemma writes_stored (rest : list ndarray) :
  forall (done : list ndarray) (w : t ndarray),
    Forall element done ->
    Forall element rest ->
    accepted bs elem dt len (List.length done) w ->
    stored done w ->
    List.length done + List.length rest <= N ->
    (forall L, len = Some L -> List.length done + List.length rest <= L) ->
    exists w', writes rest w = (Ok (), w') /\ stored (done ++ rest) w'.
Proof.
  induction rest as [|d rest IH]; intros done w Hgood Hrest Hacc Hst HN Hlen.
  - exists w. split; [done|]. by rewrite app_nil_r.
  - apply Forall_cons in Hrest as [Hd Hrest]. simpl in HN, Hlen.
    destruct (buffered_write_stored done w d Hgood Hd Hacc Hst)
      as (w1 & Hw1 & Hst1); [lia | |].
    { intros Heq. specialize (Hlen _ Heq). lia. }
    cbn [writes]. rewrite Hw1.
    pose proof (buffered_write_accepts _ _ _ _ _ _ _ _ Hacc Hw1) as Hacc1.
    destruct (IH (done ++ [d]) w1) as (w' & Hw' & Hst'); try done.
    + apply Forall_app; split; [done | by constructor].
    + by rewrite length_app.
    + rewrite length_app. simpl. lia.
    + intros L HL. specialize (Hlen L HL). rewrite length_app. simpl. lia.
    + exists w'. split; [done|]. by rewrite <- app_assoc in Hst'.
Qed.

(** X14. Round trip through a numpy array.  Elements of the declared shape
    and type, no more than the array has rows and no more than a declared
    [length], are all accepted; once the buffer is flushed the array
    holds them in the order they were written, the rows behind them are
    untouched, and [storage_array_ptr] is their number. *)
Theorem writes_round_trip (ds : list ndarray) :
  0 < bs ->
  Forall element ds ->
  List.length ds <= N ->
  (forall L, len = Some L -> List.length ds <= L) ->
  exists w' w'',
    writes ds (__init__ (zeros (N :: elem) dt) elem dt bs len) = (Ok (), w')
    /\ flush_buffer w' = (Ok (), w'')
    /\ storage_array w''
       = NDArray dt (N :: elem)
           (cells dt ds ++ replicate ((N - List.length ds) * sz) 0%Z)
    /\ storage_array_ptr w'' = List.length ds
    /\ buffer_ptr w'' = 0.
Proof.
  intros Hbs Hgood HN Hlen.
  destruct (writes_stored ds [] (__init__ (zeros (N :: elem) dt) elem dt bs len))
    as (w' & Hw & Hst); try done.
  - by apply accepted_init.
  - constructor; simpl; try done; try lia.
    + unfold zeros. simpl. by rewrite Nat.sub_0_r.
    + by rewrite length_replicate.
  - simpl in Hst.
    destruct (flush_buffer_stored _ w' Hgood Hst) as (w'' & Hf & Hst' & Hbp & Hsp).
    exists w', w''. repeat split; try done.
    destruct Hst' as [Hsto _ _ _ _ _ _ _].
    rewrite Hsto, Hsp. by rewrite take_ge by lia.
Qed.
End numpy_storage.

Lemma writes_round_trip_witness :
  exists w' w'',
    writes [NDArray dt_int64 [2] [1; 2]%Z; NDArray dt_int64 [2] [3; 4]%Z;
            NDArray dt_int64 [2] [5; 6]%Z]
      (__init__ (zeros (4 :: [2]) dt_int64) [2] dt_int64 2 None) = (Ok (), w')
    /\ flush_buffer w' = (Ok (), w'')
    /\ storage_array w''
       = NDArray dt_int64 (4 :: [2])
           (cells dt_int64
              [NDArray dt_int64 [2] [1; 2]%Z; NDArray dt_int64 [2] [3; 4]%Z;
               NDArray dt_int64 [2] [5; 6]%Z]
            ++ replicate
                 ((4 - List.length
                         [NDArray dt_int64 [2] [1; 2]%Z;
                          NDArray dt_int64 [2] [3; 4]%Z;
                          NDArray dt_int64 [2] [5; 6]%Z]) * prod_list [2]) 0%Z)
    /\ storage_array_ptr w''
       = List.length [NDArray dt_int64 [2] [1; 2]%Z;
                      NDArray dt_int64 [2] [3; 4]%Z;
                      NDArray dt_int64 [2] [5; 6]%Z]
    /\ buffer_ptr w'' = 0.
Proof.
  apply (writes_round_trip 4 2 [2] dt_int64 None).
  - lia.
  - repeat constructor.
  - simpl. lia.
  - discriminate.
Defined.

End writer_facts.

(* ================================================================== *)
(** * Properties of data_flow                                           *)
(* ================================================================== *)

Module data_flow_facts.
Import data_flow Protocol.

Section runs.
Context {A : Type}.
Variable rng : nat -> nat -> list nat.
Variable self : t A.

Lemma run_app (sched1 sched2 : list actor) (s0 : state A) :
  run rng self (sched1 ++ sched2) s0
  = match run rng self sched1 s0 with
    | Some (tr1, s1) =>
        match run rng self sched2 s1 with
        | Some (tr2, s2) => Some (tr1 ++ tr2, s2)
        | None => None
        end
    | None => None
    end.
Proof.
  revert s0; induction sched1 as [|a sched1 IH]; intros s0; simpl.
  - by destruct (run rng self sched2 s0) as [[tr2 s2]|].
  - destruct (step rng self s0 a) as [[ev s']|]; simpl; [|done].
    rewrite IH. destruct (run rng self sched1 s') as [[tr1 s1]|]; simpl; [|done].
    by destruct (run rng self sched2 s1) as [[tr2 s2]|].
Qed.

(** Induction along a run, one step at its end at a time. *)
Lemma run_ind (s0 : state A) (P : list (state A * event A) -> state A -> Prop) :
  P [] s0 ->
  (forall tr s a ev s',
     P tr s -> step rng self s a = Some (ev, s') -> P (tr ++ [(s, ev)]) s') ->
  forall sched tr s, run rng self sched s0 = Some (tr, s) -> P tr s.
Proof.
  intros Hinit Hstep sched.
  induction sched as [|a sched IH] using rev_ind; intros tr s Hrun.
  - simpl in Hrun. by injection Hrun as <- <-.
  - rewrite run_app in Hrun.
    destruct (run rng self sched s0) as [[tr1 s1]|]; [|done].
    simpl in Hrun.
    destruct (step rng self s1 a) as [[ev s']|] eqn:Hs; simpl in Hrun; [|done].
    injection Hrun as <- <-. eapply Hstep; eauto.
Qed.

End runs.

(** ** Queues, workers holding a batch, and proof automation *)

Lemma holders_insert {A} (ws : list (worker_pc (A := A))) (i : nat)
    (w w' : worker_pc) :
  ws !! i = Some w ->
  holders (<[i := w']> ws) + holding w = holders ws + holding w'.
Proof.
  unfold holders. revert i; induction ws as [|x ws IH]; intros [|i] Hl;
    simpl in *; try done.
  - injection Hl as ->. lia.
  - specialize (IH i Hl). unfold fmap in IH. lia.
Qed.

Lemma q_put_spec {X} (m : nat) (x : X) (q q' : JQueue X) :
  q_put m x q = Some q' ->
  q_items q' = q_items q ++ [x] /\ q_unfinished q' = S (q_unfinished q).
Proof. unfold q_put. case_decide; [|done]. by intros [= <-]. Qed.

Lemma q_get_spec {X} (x : X) (q q' : JQueue X) :
  q_get q = Some (x, q') ->
  q_items q = x :: q_items q' /\ q_unfinished q' = q_unfinished q.
Proof.
  unfold q_get. destruct (q_items q) eqn:E; [done|]. by intros [= <- <-].
Qed.

Lemma q_get_none {X} (q : JQueue X) : q_get q = None -> q_items q = [].
Proof. unfold q_get. by destruct (q_items q). Qed.

Lemma q_task_done_spec {X} (q q' : JQueue X) :
  q_task_done q = Ok q' ->
  q_items q' = q_items q /\ q_unfinished q = S (q_unfinished q').
Proof.
  unfold q_task_done. destruct (q_unfinished q) eqn:E; [done|].
  by intros [= <-].
Qed.

Lemma q_joined_spec {X} (q : JQueue X) :
  q_joined q = true -> q_unfinished q = 0.
Proof. unfold q_joined. by rewrite Nat.eqb_eq. Qed.

Ltac queue_facts :=
  repeat match goal with
  | H : q_put _ _ _ = Some _ |- _ => apply q_put_spec in H as [? ?]
  | H : q_get _ = Some _ |- _ => apply q_get_spec in H as [? ?]
  | H : q_get _ = None |- _ => apply q_get_none in H
  | H : q_task_done _ = Ok _ |- _ => apply q_task_done_spec in H as [? ?]
  | H : q_joined _ = true |- _ => apply q_joined_spec in H
  end.

Ltac destruct_pairs :=
  match goal with
  | x : prod _ _ |- _ => destruct x
  | H : ?m ≫= _ = Some _ |- _ =>
      let E := fresh "E" in
      destruct m eqn:E; simpl in H; [|discriminate]
  end.

Ltac use_queue_eqs :=
  repeat match goal with
  | H : q_items ?q = _ |- context [q_items ?q] => rewrite H
  | H : q_unfinished ?q = _ |- context [q_unfinished ?q] => rewrite H
  | H : q_items ?q = _, H' : context [q_items ?q] |- _ => rewrite H in H'
  | H : q_unfinished ?q = _, H' : context [q_unfinished ?q] |- _ =>
      rewrite H in H'
  end.

Ltac field_done :=
  intros; simplify_eq/=; unfold q_settled in *;
  repeat match goal with
  | H : exists _, _ |- _ => destruct H
  | H : _ \/ _ |- _ => destruct H
  | H : _ /\ _ |- _ => destruct H
  end;
  simplify_eq/=;
  repeat match goal with
  | H : ?a = true -> _, H' : ?a = true |- _ => specialize (H H')
  | H : true = true -> _ |- _ => specialize (H eq_refl)
  | H : (exists e, _) -> _ |- _ =>
      let H' := fresh in
      assert (H' := H (ex_intro _ _ (or_introl eq_refl))) ||
      assert (H' := H (ex_intro _ _ (or_intror eq_refl))) ||
      assert (H' := H (ex_intro _ _ eq_refl)); clear H
  | H : _ /\ _ |- _ => destruct H
  end;
  simplify_eq/=; use_queue_eqs;
  try done; try congruence; eauto;
  try (eapply Forall_impl; [eassumption | by simpl; intros; eauto]);
  try (rewrite ?length_app in *; simpl in *; lia);
  try (repeat split; use_queue_eqs; try congruence;
       try (apply length_zero_iff_nil; rewrite ?length_app in *; simpl in *; lia);
       rewrite ?length_app in *; simpl in *; lia).

Lemma holders_lookup {A} (ws : list (worker_pc (A := A))) (i : nat) (w : worker_pc) :
  ws !! i = Some w -> holding w <= holders ws.
Proof.
  unfold holders. revert i; induction ws as [|x ws IH]; intros [|i] Hl;
    simpl in *; try done.
  - injection Hl as ->. lia.
  - specialize (IH i Hl). unfold fmap in IH. lia.
Qed.

Lemma holders_insert_eq {A} (ws : list (worker_pc (A := A))) (i : nat)
    (w w' : worker_pc) :
  ws !! i = Some w ->
  holders (<[i := w']> ws) = holders ws + holding w' - holding w.
Proof.
  intros Hl. pose proof (holders_insert ws i w w' Hl).
  pose proof (holders_lookup ws i w Hl). lia.
Qed.

Ltac worker_field Hl :=
  rewrite ?(holders_insert_eq _ _ _ _ Hl); simpl holding;
  first [ apply Forall_insert;
          [ field_done
          | by intros; repeat case_match; simplify_eq/=;
               repeat match goal with b : bool |- _ => destruct b end;
               field_done ]
        | field_done ].

(** ** The protocol invariant *)

Section protocol.
Context {A : Type}.
Variable rng : nat -> nat -> list nat.
Variable self : t A.
Hypothesis one_epoch : loop_forever self = false.

Lemma loader_step_inv (s s' : state A) (ev : event A) :
  protocol_inv s ->
  loader_step rng self s = Some (ev, s') ->
  is_fault ev = false ->
  protocol_inv s'.
Proof.
  intros [] Hstep Hnf. destruct s as [st dr lq pq lpc ws cpc].
  unfold loader_step in Hstep. simpl in *.
  destruct lpc; simpl in *; rewrite ?one_epoch in *;
    repeat case_match; simplify_option_eq; queue_facts;
    (constructor; simpl; field_done).
Qed.

Lemma consumer_step_inv (s s' : state A) (ev : event A) :
  protocol_inv s ->
  consumer_step self s = Some (ev, s') ->
  is_fault ev = false ->
  protocol_inv s'.
Proof.
  intros [] Hstep Hnf. destruct s as [st dr lq pq lpc ws cpc].
  unfold consumer_step in Hstep. simpl in *.
  destruct cpc; simpl in *;
    repeat (first [case_match | destruct_pairs]; simplify_option_eq);
    queue_facts;
    (constructor; simpl; field_done).
Qed.

Lemma worker_step_inv (s s' : state A) (i : nat) (ev : event A) :
  protocol_inv s ->
  worker_step self i s = Some (ev, s') ->
  is_fault ev = false ->
  protocol_inv s'.
Proof.
  intros [] Hstep Hnf. destruct s as [st dr lq pq lpc ws cpc].
  unfold worker_step in Hstep. simpl in *.
  destruct (ws !! i) as [w|] eqn:Hl; simpl in Hstep; [|done].
  pose proof (Forall_lookup_1 _ _ _ _ workers_drained0 Hl) as Hw.
  pose proof (holders_lookup _ _ _ Hl) as Hh.
  destruct w; simpl in *;
    repeat (first [case_match | destruct_pairs]; simplify_option_eq);
    simplify_eq/=; queue_facts;
    (constructor; simpl; worker_field Hl).
Qed.

(** Every step that does not raise keeps the invariant. *)
Lemma protocol_step (s s' : state A) (a : actor) (ev : event A) :
  protocol_inv s ->
  step rng self s a = Some (ev, s') ->
  is_fault ev = false ->
  protocol_inv s'.
Proof.
  destruct a; simpl.
  - apply loader_step_inv.
  - apply worker_step_inv.
  - apply consumer_step_inv.
Qed.

Lemma protocol_init : protocol_inv (init self).
Proof.
  constructor; simpl; try done.
  - apply Forall_replicate. done.
  - assert (holders (replicate (nb_workers self) (WWhile (A := A))) = 0) as ->;
      [|lia].
    unfold holders. induction (nb_workers self) as [|n IH]; [done|].
    simpl. unfold fmap in IH. by rewrite IH.
Qed.

(** What a step that does not raise tells about its event. *)
Lemma step_facts (s s' : state A) (a : actor) (ev : event A) :
  protocol_inv s ->
  step rng self s a = Some (ev, s') ->
  is_fault ev = false ->
  (stop_on_empty s' = true -> stop_on_empty s = true \/ ev = EvDrain)
  /\ (forall who, ev = EvStop who -> stop_on_empty s = true)
  /\ sentinels_sent (loader s')
     = sentinels_sent (loader s) + (if is_sentinel ev then 1 else 0)
  /\ (ev = EvSentinel ->
      q_settled (load_queue s) /\ q_settled (proc_queue s))
  /\ (forall x, ev = EvYield x -> x <> None).
Proof.
  intros [] Hstep Hnf. destruct s as [st dr lq pq lpc ws cpc].
  destruct a as [|i|]; simpl in Hstep.
  - unfold loader_step in Hstep. simpl in *.
    destruct lpc as [[|e]| | | | | | | | | |]; simpl in *;
      rewrite ?one_epoch in *;
      repeat (first [case_match | destruct_pairs]; simplify_option_eq);
      simplify_eq/=; repeat split; field_done.
  - unfold worker_step in Hstep. simpl in *.
    destruct (ws !! i) as [w|] eqn:Hl; simpl in Hstep; [|done].
    pose proof (Forall_lookup_1 _ _ _ _ workers_drained0 Hl) as Hw.
    destruct w; simpl in *;
      repeat (first [case_match | destruct_pairs]; simplify_option_eq);
      simplify_eq/=; repeat split; field_done.
  - unfold consumer_step in Hstep. simpl in *.
    destruct cpc; simpl in *;
      repeat (first [case_match | destruct_pairs]; simplify_option_eq);
      simplify_eq/=; repeat split; field_done.
Qed.

Lemma sentinel_count_snoc (tr : list (state A * event A)) (s : state A)
    (ev : event A) :
  sentinel_count (tr ++ [(s, ev)])
  = sentinel_count tr + (if is_sentinel ev then 1 else 0).
Proof.
  unfold sentinel_count. rewrite filter_app, length_app. f_equal.
  destruct (is_sentinel ev) eqn:E.
  - by rewrite filter_cons_True.
  - rewrite filter_cons_False; [done|]. simpl. congruence.
Qed.

Lemma yields_snoc (tr : list (state A * event A)) (s : state A) (ev : event A) :
  yields (tr ++ [(s, ev)])
  = yields tr ++ match ev with EvYield x => [x] | _ => [] end.
Proof. unfold yields. rewrite omap_app. f_equal. by destruct ev. Qed.


Lemma fault_free_snoc (tr : list (state A * event A)) (s : state A)
    (ev : event A) :
  fault_free (tr ++ [(s, ev)]) <-> fault_free tr /\ is_fault ev = false.
Proof.
  unfold fault_free. rewrite Forall_app, Forall_singleton. done.
Qed.

Lemma trace_step (tr : list (state A * event A)) (s s' : state A)
    (a : actor) (ev : event A) :
  protocol_inv s -> trace_inv tr s ->
  step rng self s a = Some (ev, s') ->
  is_fault ev = false ->
  trace_inv (tr ++ [(s, ev)]) s'.
Proof.
  intros Hinv [] Hstep Hnf.
  destruct (step_facts _ _ _ _ Hinv Hstep Hnf)
    as (Hdrain & Hstop & Hsent & Hsettled & Hyield).
  constructor.
  - intros Hd. unfold events. rewrite fmap_app, elem_of_app.
    destruct (Hdrain Hd) as [Hold | ->]; [left; auto|].
    right. simpl. apply list_elem_of_singleton. done.
  - intros tr1 s1 who tr2 Heq.
    destruct tr2 as [|x tr2 _] using rev_ind.
    + apply app_inj_tail in Heq as [<- [= <- ->]].
      split; [|by eapply Hstop]. apply drain_logged0. by eapply Hstop.
    + rewrite app_comm_cons, app_assoc in Heq.
      apply app_inj_tail in Heq as [-> _]. by eapply stops_after_drain0.
  - by rewrite sentinel_count_snoc, Hsent, sentinel_counted0.
  - intros s1 Hin. apply elem_of_app in Hin as [Hin | Hin]; [auto|].
    apply list_elem_of_singleton in Hin as [= -> <-]. auto.
  - rewrite yields_snoc, elem_of_app. intros [Hin | Hin]; [done|].
    destruct ev; try (by apply elem_of_nil in Hin).
    apply list_elem_of_singleton in Hin. by eapply Hyield.
Qed.

Lemma trace_init : trace_inv [] (init self).
Proof.
  constructor; simpl; try done.
  - intros tr1 s1 who tr2 Heq. by destruct tr1.
  - intros s1 Hin. by apply elem_of_nil in Hin.
  - apply not_elem_of_nil.
Qed.

(** Along every run in which no stage raises, both invariants hold. *)
Lemma run_invariants (sched : list actor) (tr : list (state A * event A))
    (s : state A) :
  run rng self sched (init self) = Some (tr, s) ->
  fault_free tr ->
  protocol_inv s /\ trace_inv tr s.
Proof.
  revert sched tr s.
  apply (run_ind rng self (init self)
           (fun tr s => fault_free tr -> protocol_inv s /\ trace_inv tr s)).
  - intros _. split; [apply protocol_init | apply trace_init].
  - intros tr s a ev s' IH Hstep Hff.
    apply fault_free_snoc in Hff as [Hff Hnf].
    destruct (IH Hff) as [Hp Ht]. split.
    + by eapply protocol_step.
    + by eapply trace_step.
Qed.

End protocol.

(** C4. In a run of [flow] with [loop_forever] disabled in which no stage
    raises: every [stop.set()] is preceded by the loader's
    [stop_on_empty.set()]; at most one sentinel is pushed into the result
    queue, it is pushed in a state where both queues hold nothing and have
    no unacknowledged item, and exactly one has been pushed once the
    loader has returned; and no value handed to the caller is the
    sentinel. *)
Theorem drain_sentinel_stop_protocol {A : Type} (rng : nat -> nat -> list nat)
    (self : t A) (sched : list actor) (tr : list (state A * event A))
    (s : state A) :
  loop_forever self = false ->
  run rng self sched (init self) = Some (tr, s) ->
  fault_free tr ->
  (forall tr1 s1 who tr2,
     tr = tr1 ++ (s1, EvStop who) :: tr2 ->
     EvDrain ∈ events tr1 /\ stop_on_empty s1 = true)
  /\ sentinel_count tr <= 1
  /\ (forall s1, (s1, EvSentinel) ∈ tr ->
        q_settled (load_queue s1) /\ q_settled (proc_queue s1))
  /\ (loader s = LExit -> sentinel_count tr = 1)
  /\ None ∉ yields tr.
Proof.
  intros Hlf Hrun Hff.
  destruct (run_invariants rng self Hlf sched tr s Hrun Hff) as [Hp []].
  repeat split; auto.
  - eapply stops_after_drain0; eauto.
  - eapply stops_after_drain0; eauto.
  - rewrite sentinel_counted0. destruct (loader s) as [[|e]| | | | | | | | | |];
      simpl; lia.
  - eapply sentinel_settled0; eauto.
  - eapply sentinel_settled0; eauto.
  - eapply sentinel_settled0; eauto.
  - eapply sentinel_settled0; eauto.
  - intros Hl. by rewrite sentinel_counted0, Hl.
Qed.

Lemma for_each_lookup {X Y} (f : X -> result Y) (xs : list X) (l : list Y) :
  for_each f xs = Ok l ->
  length l = length xs
  /\ forall i x, xs !! i = Some x -> exists y, f x = Ok y /\ l !! i = Some y.
Proof.
  revert l; induction xs as [|x xs IH]; intros l Hl; simpl in Hl.
  - injection Hl as <-. split; [done|]. intros i x Hx. by destruct i.
  - destruct (f x) as [y|] eqn:Hy; simpl in Hl; [|done].
    destruct (for_each f xs) as [ys|] eqn:Hys; simpl in Hl; [|done].
    injection Hl as <-. destruct (IH ys eq_refl) as [Hlen Hlk].
    split; [simpl; lia|]. intros [|i] x' Hx'; simpl in *.
    + injection Hx' as <-. eauto.
    + eauto.
Qed.

Section one_worker_facts.
Context {A : Type}.
Variable rng : nat -> nat -> list nat.
Variable self : t A.
Variable L : nat.
Variable batches : list (Batch (A := A)).
Hypothesis one_epoch : loop_forever self = false.
Hypothesis one_worker : nb_workers self = 1.
Hypothesis len_ok : __len__ self = Ok L.
Hypothesis batches_ok :
  epoch_batches self (first_indices rng self L) = Ok batches.

Abbreviation inv := (flow_inv self (first_indices rng self L) batches).

Lemma batches_length : length batches = num_batches self.
Proof.
  destruct (for_each_lookup _ _ _ batches_ok) as [Hlen _].
  by rewrite Hlen, length_seq.
Qed.

Lemma batches_lookup (b : nat) :
  b < num_batches self ->
  exists batch, make_batch self (first_indices rng self L) b = Ok batch
                /\ batches !! b = Some batch.
Proof.
  intros Hb. destruct (for_each_lookup _ _ _ batches_ok) as [_ Hlk].
  apply (Hlk b b). by apply lookup_seq_lt.
Qed.
















End one_worker_facts.

Lemma drain_sentinel_stop_protocol_witness :
  exists tr s,
    run Fixtures.flow_rng Fixtures.pipe_two_workers Fixtures.sched_two_workers
      (init Fixtures.pipe_two_workers) = Some (tr, s)
    /\ consumer s = CDone
    /\ (forall tr1 s1 who tr2,
          tr = tr1 ++ (s1, EvStop who) :: tr2 ->
          EvDrain ∈ events tr1 /\ stop_on_empty s1 = true)
    /\ sentinel_count tr <= 1
    /\ (forall s1, (s1, EvSentinel) ∈ tr ->
          q_settled (load_queue s1) /\ q_settled (proc_queue s1))
    /\ (loader s = LExit -> sentinel_count tr = 1)
    /\ None ∉ yields tr.
Proof.
  eexists _, _. split; [vm_compute; reflexivity|]. split; [reflexivity|].
  eapply (drain_sentinel_stop_protocol Fixtures.flow_rng
            Fixtures.pipe_two_workers Fixtures.sched_two_workers).
  - reflexivity.
  - vm_compute. reflexivity.
  - unfold fault_free. repeat constructor.
Defined.

(** ** The constructor and the batches of an epoch *)

Section init_facts.
Context {A : Type}.

Lemma ceil_div (L bs : nat) :
  bs <> 0 ->
  L / bs + (if decide (0 < L mod bs) then 1 else 0) = (L + bs - 1) / bs.
Proof.
  intros Hbs. pose proof (Nat.div_mod_eq L bs) as Hdm.
  pose proof (Nat.mod_upper_bound L bs Hbs) as Hlt.
  case_decide as Hm.
  - apply (Nat.div_unique _ _ _ (L mod bs - 1)); nia.
  - apply (Nat.div_unique _ _ _ (bs - 1)); nia.
Qed.

(** X15. The outcome of the constructor of [data_flow].  It returns when
    there is a first source, every source has the length of the first
    and the batch size is not 0; [num_batches] is then that length
    divided by the batch size, rounded up.  Without a source it raises
    [IndexError], with sources of different lengths [AssertionError],
    and with a batch size of 0 [ZeroDivisionError]. *)
Theorem init_outcome (d : list (list A)) (bs nw : nat) (shuf lf : bool) :
  match __init__ d bs nw shuf lf with
  | Ok self =>
      exists d0 rest, d = d0 :: rest
        /\ Forall (fun x => length x = length d0) d
        /\ bs <> 0
        /\ self = {| data := d; batch_size := bs; nb_workers := nw;
                     shuffle := shuf; loop_forever := lf;
                     num_batches := (length d0 + bs - 1) / bs |}
  | Raise e =>
      (e = IndexError /\ d = [])
      \/ (e = AssertionError /\ exists d0 rest, d = d0 :: rest
            /\ ~ Forall (fun x => length x = length d0) d)
      \/ (e = ZeroDivisionError /\ bs = 0 /\ exists d0 rest, d = d0 :: rest
            /\ Forall (fun x => length x = length d0) d)
  end.
Proof.
  unfold __init__. destruct d as [|d0 rest]; simpl; [by left|].
  case_decide as Hall.
  - case_decide as Hbs.
    + right; right. eauto 10.
    + exists d0, rest. repeat split; auto. by rewrite ceil_div.
  - right; left. eauto 10.
Qed.
End init_facts.

Lemma for_each_Forall2 {X Y} (f : X -> result Y) (xs : list X) (ys : list Y) :
  for_each f xs = Ok ys <-> Forall2 (fun x y => f x = Ok y) xs ys.
Proof.
  revert ys; induction xs as [|x xs IH]; intros ys; simpl.
  - split.
    + intros [= <-]. constructor.
    + intros H. by inversion H.
  - split.
    + destruct (f x) as [y|] eqn:Hy; simpl; [|done].
      destruct (for_each f xs) as [ys'|] eqn:Hys; simpl; [|done].
      intros [= <-]. constructor; [done|]. by apply IH.
    + intros H. inversion H as [|? y ? ys' Hy Hys]; subst.
      rewrite Hy. simpl. apply IH in Hys. by rewrite Hys.
Qed.

Lemma for_each_ok {X Y} (f : X -> result Y) (xs : list X) :
  Forall (fun x => is_ok (f x) = true) xs -> exists ys, for_each f xs = Ok ys.
Proof.
  induction 1 as [|x xs Hx _ [ys IH]]; simpl; [by eexists|].
  destruct (f x) as [y|]; [|done]. rewrite IH. simpl. by eexists.
Qed.

Lemma Forall2_concat_lists {X Y} (P : X -> Y -> Prop) (ls : list (list X))
    (ks : list (list Y)) :
  Forall2 (Forall2 P) ls ks -> Forall2 P (concat ls) (concat ks).
Proof.
  induction 1; simpl; [constructor|]. by apply Forall2_app.
Qed.

Lemma chunks_concat {X} (l : list X) (bs nb : nat) :
  concat ((fun b => take ((b + 1) * bs - b * bs) (drop (b * bs) l)) <$> seq 0 nb)
  = take (nb * bs) l.
Proof.
  induction nb as [|nb IH]; [done|].
  rewrite seq_S, fmap_app, concat_app, IH. simpl. rewrite app_nil_r.
  replace ((nb + 1) * bs - nb * bs) with bs by lia.
  rewrite take_take_drop. f_equal. lia.
Qed.

Lemma lookup_all_seq {X} (d xs : list X) :
  Forall2 (fun i x => d !! i = Some x) (seq 0 (length d)) xs -> xs = d.
Proof.
  intros H. apply list_eq. intros i.
  destruct (d !! i) as [x|] eqn:Hd.
  - pose proof (lookup_lt_Some _ _ _ Hd) as Hi.
    destruct (Forall2_lookup_l _ _ _ i i H) as (y & Hy & Hxy).
    { by apply lookup_seq_lt. }
    rewrite Hy. congruence.
  - apply lookup_ge_None in Hd. apply lookup_ge_None.
    apply Forall2_length in H. rewrite length_seq in H. lia.
Qed.

Section batches.
Context {A : Type}.
Variable self : t A.
Variable L : nat.
Variable indices : list nat.

Abbreviation bs := (batch_size self).
Abbreviation nb := (num_batches self).
Abbreviation chunk b := (take ((b + 1) * bs - b * bs) (drop (b * bs) indices)).

Lemma nb_bounds :
  bs <> 0 -> nb = (L + bs - 1) / bs ->
  L <= nb * bs /\ (0 < L -> (nb - 1) * bs < L) /\ (L = 0 -> nb = 0).
Proof.
  intros bs_pos nb_ok. rewrite nb_ok.
  pose proof (Nat.div_mod_eq (L + bs - 1) bs).
  pose proof (Nat.mod_upper_bound (L + bs - 1) bs bs_pos).
  repeat split; nia.
Qed.

Lemma make_batch_ok (b : nat) :
  Forall (fun d => length d = L) (data self) ->
  Forall (fun i => i < L) indices ->
  exists batch, make_batch self indices b = Ok batch.
Proof.
  intros sources_len indices_in.
  unfold make_batch. apply for_each_ok.
  eapply Forall_impl; [exact sources_len|]. intros d Hd.
  destruct (for_each_ok (fun i => list_get d i) (chunk b)) as [col Hcol];
    [|by rewrite Hcol].
  apply Forall_take, Forall_drop.
  eapply Forall_impl; [exact indices_in|]. intros i Hi. simpl in Hi.
  unfold list_get. destruct (d !! i) eqn:E; [done|].
  apply lookup_ge_None in E. simpl in Hd. lia.
Qed.

Lemma epoch_batches_ok :
  Forall (fun d => length d = L) (data self) ->
  Forall (fun i => i < L) indices ->
  exists batches, epoch_batches self indices = Ok batches.
Proof.
  intros sources_len indices_in.
  unfold epoch_batches. apply for_each_ok. apply Forall_forall.
  intros b _. destruct (make_batch_ok b) as [batch ->]; done.
Qed.

Lemma epoch_batches_spec (batches : list (Batch (A := A))) :
  epoch_batches self indices = Ok batches ->
  length batches = nb
  /\ forall b batch, batches !! b = Some batch ->
       Forall2 (fun d col => Forall2 (fun i x => d !! i = Some x) (chunk b) col)
         (data self) batch.
Proof.
  intros Hb. destruct (for_each_lookup _ _ _ Hb) as [Hlen Hlk].
  rewrite length_seq in Hlen. split; [done|].
  intros b batch Hbatch.
  pose proof (lookup_lt_Some _ _ _ Hbatch) as Hlt.
  unfold Batch in *. rewrite Hlen in Hlt.
  destruct (Hlk b b) as (batch' & Hmk & Hbatch'); [by apply lookup_seq_lt|].
  rewrite Hbatch in Hbatch'. injection Hbatch' as <-.
  unfold make_batch in Hmk. apply for_each_Forall2 in Hmk.
  eapply Forall2_impl; [exact Hmk|]. intros d col Hcol. simpl in Hcol.
  apply for_each_Forall2 in Hcol.
  eapply Forall2_impl; [exact Hcol|]. intros i x Hx. simpl in Hx.
  unfold list_get in Hx. by destruct (d !! i); simplify_eq.
Qed.

Lemma chunk_length (b : nat) :
  bs <> 0 -> nb = (L + bs - 1) / bs -> length indices = L ->
  b < nb ->
  length (chunk b)
  = if decide (S b < nb) then bs
    else if decide (L mod bs = 0) then bs else L mod bs.
Proof.
  intros bs_pos nb_ok indices_len Hb.
  destruct (nb_bounds bs_pos nb_ok) as (Hup & Hlow & Hz).
  rewrite length_take, length_drop, indices_len.
  replace ((b + 1) * bs - b * bs) with bs by lia.
  assert (0 < L) as HL by (destruct (decide (L = 0)) as [HL|]; [|lia];
                           specialize (Hz HL); lia).
  specialize (Hlow HL).
  case_decide as Hlast.
  - assert (S b * bs <= (nb - 1) * bs) by (apply Nat.mul_le_mono_r; lia).
    lia.
  - assert (b = nb - 1) as -> by lia.
    pose proof (Nat.div_mod_eq L bs) as Hdm.
    pose proof (Nat.mod_upper_bound L bs bs_pos) as Hm.
    assert (nb = L / bs + (if decide (0 < L mod bs) then 1 else 0)) as Hnb.
    { rewrite nb_ok. symmetry. by apply ceil_div. }
    destruct (decide (L mod bs = 0)) as [Hz'|Hz'];
      destruct (decide (0 < L mod bs)) as [Hp|Hp]; try lia; nia.
Qed.
End batches.

Lemma omap_Forall2 {X Y Z} (f : Y -> option Z) (R : X -> Z -> Prop)
    (xs : list X) (ys : list Y) :
  Forall2 (fun x y => exists z, f y = Some z /\ R x z) xs ys ->
  Forall2 R xs (omap f ys).
Proof.
  induction 1 as [|x y xs ys (z & Hz & HR) _ IH]; simpl; [constructor|].
  rewrite Hz. by constructor.
Qed.

Section constructed_pipeline.
Context {A : Type}.
Variables (d : list (list A)) (bs nw : nat) (shuf lf : bool).
Variable self : t A.
Hypothesis constructed : __init__ d bs nw shuf lf = Ok self.

Lemma flow_init_fields :
  exists d0 rest, d = d0 :: rest
    /\ Forall (fun x => length x = length d0) d
    /\ bs <> 0
    /\ data self = d /\ batch_size self = bs /\ nb_workers self = nw
    /\ shuffle self = shuf /\ loop_forever self = lf
    /\ num_batches self = (length d0 + bs - 1) / bs
    /\ __len__ self = Ok (length d0).
Proof.
  unfold __init__ in constructed. destruct d as [|d0 rest]; [done|].
  simpl in constructed.
  destruct (decide (Forall _ _)) as [Hall|]; [|done].
  destruct (decide (bs = 0)) as [|Hbs]; [done|].
  injection constructed as <-. exists d0, rest. simpl.
  repeat split; auto. by rewrite ceil_div.
Qed.

(** X16. Shapes of the batches of an epoch.  Over an order of [L]
    indices the loader builds [L / batch_size] batches, rounded up; a
    batch holds one column per source, and a column holds [batch_size]
    entries, except in the last batch, which holds the [L mod batch_size]
    remaining ones when [batch_size] does not divide [L]. *)
Theorem epoch_batches_shape (L : nat) (indices : list nat) :
  __len__ self = Ok L ->
  length indices = L ->
  Forall (fun i => i < L) indices ->
  exists batches,
    epoch_batches self indices = Ok batches
    /\ length batches = (L + bs - 1) / bs
    /\ forall b batch, batches !! b = Some batch ->
         length batch = length d
         /\ Forall (fun col =>
                      length col
                      = if decide (S b < length batches) then bs
                        else if decide (L mod bs = 0) then bs else L mod bs)
              batch.
Proof.
  intros HL Hlen Hin.
  destruct flow_init_fields as (d0 & rest & Hd & Hall & Hbs & Hdata & Hbsz & _ & _
                           & _ & Hnb & HL').
  rewrite HL in HL'. injection HL' as ->.
  assert (Forall (fun x => length x = length d0) (data self)) as Hsrc
    by by rewrite Hdata.
  rewrite <- Hbsz in Hbs, Hnb |- *.
  destruct (epoch_batches_ok self (length d0) indices Hsrc Hin) as [batches Hb].
  exists batches. split; [done|].
  destruct (epoch_batches_spec self indices batches Hb) as [Hlb Hcols].
  split; [by rewrite Hlb|].
  intros b batch Hbatch. specialize (Hcols b batch Hbatch).
  pose proof (lookup_lt_Some _ _ _ Hbatch) as Hlt.
  unfold Batch in *. rewrite Hlb in Hlt.
  split.
  - apply Forall2_length in Hcols. by rewrite <- Hcols, Hdata.
  - rewrite Hlb.
    rewrite <- (chunk_length self (length d0) indices b Hbs Hnb Hlen Hlt).
    apply Forall_forall. intros col Hcol.
    apply list_elem_of_lookup in Hcol as [k Hk].
    destruct (Forall2_lookup_r _ _ _ _ _ Hcols Hk) as (src & _ & Hc).
    apply Forall2_length in Hc. by rewrite Hc.
Qed.

(** X17. The batches of an epoch hold, source by source, the elements at the
    indices of the order, each once and in that order. *)
Theorem epoch_batches_cover (L : nat) (indices : list nat)
    (batches : list (Batch (A := A))) (k : nat) (src : list A) :
  __len__ self = Ok L ->
  length indices = L ->
  epoch_batches self indices = Ok batches ->
  d !! k = Some src ->
  Forall2 (fun i x => src !! i = Some x) indices
    (concat (omap (fun batch : Batch => batch !! k) batches))
  /\ (indices = seq 0 L ->
      concat (omap (fun batch : Batch => batch !! k) batches) = src).
Proof.
  intros HL Hlen Hb Hsrc.
  destruct flow_init_fields as (d0 & rest & Hd & Hall & Hbs & Hdata & Hbsz & _ & _
                           & _ & Hnb & HL').
  rewrite HL in HL'. injection HL' as ->.
  rewrite <- Hbsz in Hbs, Hnb.
  destruct (epoch_batches_spec self indices batches Hb) as [Hlb Hcols].
  destruct (nb_bounds self (length d0) Hbs Hnb) as (Hup & _).
  assert (Forall2 (fun i x => src !! i = Some x) indices
            (concat (omap (fun batch : Batch => batch !! k) batches))) as HF.
  { assert (concat ((fun b => take ((b + 1) * batch_size self
                                    - b * batch_size self)
                               (drop (b * batch_size self) indices))
                      <$> seq 0 (num_batches self)) = indices) as Hcc
      by (rewrite chunks_concat; apply take_ge; lia).
    rewrite <- Hcc at 1.
    apply Forall2_concat_lists, Forall2_fmap_l, omap_Forall2.
    apply Forall2_same_length_lookup_2.
    { unfold Batch in *. by rewrite length_seq, Hlb. }
    intros i b batch Hi Hbatch. apply lookup_seq in Hi as [-> _]. simpl.
    specialize (Hcols _ _ Hbatch). rewrite Hdata in Hcols.
    destruct (Forall2_lookup_l _ _ _ _ _ Hcols Hsrc) as (col & Hcol & Hc).
    eauto. }
  split; [done|]. intros ->.
  assert (length src = length d0) as Hls.
  { rewrite Forall_forall in Hall. apply Hall.
    apply list_elem_of_lookup. eauto. }
  rewrite <- Hls in HF. by apply lookup_all_seq.
Qed.

End constructed_pipeline.

(** ** A schedule that completes *)

Section sequential.
Context {A : Type}.
Variable rng : nat -> nat -> list nat.
Variable self : t A.
Variable L : nat.
Variable batches : list (Batch (A := A)).
Hypothesis one_epoch : loop_forever self = false.
Hypothesis one_worker : nb_workers self = 1.
Hypothesis len_ok : __len__ self = Ok L.
Hypothesis batches_ok :
  epoch_batches self (first_indices rng self L) = Ok batches.

Abbreviation idle := (Protocol.idle (first_indices rng self L)).

Lemma q_put_empty {X} (x : X) (n : nat) :
  q_put 1 x {| q_items := []; q_unfinished := n |}
  = Some {| q_items := [x]; q_unfinished := S n |}.
Proof. unfold q_put. by rewrite decide_True by (simpl; lia). Qed.

Lemma run_cons (a : actor) (sched : list actor) (s s' s'' : state A)
    (ev : event A) (tr : list (state A * event A)) :
  step rng self s a = Some (ev, s') ->
  run rng self sched s' = Some (tr, s'') ->
  run rng self (a :: sched) s = Some ((s, ev) :: tr, s'').
Proof. intros Hs Hr. simpl. rewrite Hs. simpl. by rewrite Hr. Qed.

Ltac one_step :=
  eapply run_cons;
  [ unfold step, loader_step, worker_step, consumer_step; simpl;
    rewrite ?one_worker, ?one_epoch, ?q_put_empty; simpl;
    reflexivity
  | ].

Lemma round_run (b : nat) (batch : Batch) :
  b < num_batches self ->
  make_batch self (first_indices rng self L) b = Ok batch ->
  exists tr, run rng self round_schedule (idle b) = Some (tr, idle (S b))
             /\ yields tr = [Some batch].
Proof.
  intros Hb Hmk. unfold round_schedule, Protocol.idle, q_new.
  eexists. split.
  - eapply run_cons.
    { unfold step, loader_step; simpl. rewrite decide_True by done.
      rewrite Hmk. reflexivity. }
    do 10 one_step. reflexivity.
  - reflexivity.
Qed.
Lemma yields_app (tr1 tr2 : list (state A * event A)) :
  yields (tr1 ++ tr2) = yields tr1 ++ yields tr2.
Proof. apply omap_app. Qed.

Lemma rounds_run (n : nat) :
  forall b, b + n = num_batches self ->
    exists tr,
      run rng self (concat (replicate n round_schedule)) (idle b)
      = Some (tr, idle (num_batches self))
      /\ yields tr = Some <$> drop b batches.
Proof.
  pose proof (batches_length rng self L batches batches_ok) as Hlen.
  induction n as [|n IH]; intros b Hb.
  - replace b with (num_batches self) by lia. exists []. split; [done|].
    by rewrite drop_ge by lia.
  - destruct (batches_lookup rng self L batches batches_ok b)
      as (batch & Hmk & Hbatch); [lia|].
    destruct (round_run b batch) as (tr1 & Hr1 & Hy1); [lia | done |].
    destruct (IH (S b)) as (tr2 & Hr2 & Hy2); [lia|].
    exists (tr1 ++ tr2). split.
    + change (concat (replicate (S n) round_schedule))
        with (round_schedule ++ concat (replicate n round_schedule)).
      by rewrite run_app, Hr1, Hr2.
    + rewrite yields_app, Hy1, Hy2. by rewrite (drop_S _ _ _ Hbatch).
Qed.

Lemma closing_run :
  exists tr,
    run rng self closing_schedule (idle (num_batches self)) = Some (tr, finished)
    /\ yields tr = [].
Proof.
  unfold closing_schedule, Protocol.idle, finished, q_new.
  eexists. split.
  - eapply run_cons.
    { unfold step, loader_step; simpl. rewrite decide_False by lia.
      rewrite one_epoch. reflexivity. }
    do 16 one_step. reflexivity.
  - reflexivity.
Qed.

(** The sequential schedule runs the pipeline to its end and hands the
    caller every batch of the epoch, in order. *)
Lemma sequential_run :
  exists tr,
    run rng self (sequential_schedule (num_batches self)) (init self)
    = Some (tr, finished)
    /\ yields tr = Some <$> batches.
Proof.
  destruct (rounds_run (num_batches self) 0) as (tr1 & Hr1 & Hy1); [lia|].
  destruct closing_run as (tr2 & Hr2 & Hy2).
  eexists. split.
  - assert (step rng self (init self) ALoader = Some (EvTau, idle 0)) as H0.
    { unfold step, loader_step, init, Protocol.idle, first_indices; simpl.
      by rewrite len_ok, one_worker. }
    unfold sequential_schedule. eapply (run_cons _ _ _ _ _ _ _ H0).
    by rewrite run_app, Hr1, Hr2.
  - simpl. by rewrite yields_app, Hy1, Hy2, app_nil_r.
Qed.
End sequential.

(** ** Endless streaming, capacity and flags *)

Section forever.
Context {A : Type}.
Variable rng : nat -> nat -> list nat.
Variable self : t A.
Hypothesis forever : loop_forever self = true.

Lemma forever_step (s s' : state A) (a : actor) (ev : event A) :
  forever_inv s ->
  step rng self s a = Some (ev, s') ->
  is_fault ev = false ->
  forever_inv s' /\ is_shutdown ev = false.
Proof.
  intros [] Hstep Hnf. destruct s as [st dr lq pq lpc ws cpc]. simpl in *.
  destruct a as [|i|]; simpl in Hstep.
  - unfold loader_step in Hstep. simpl in *.
    destruct lpc; simpl in *; rewrite ?forever in *;
      repeat (first [case_match | destruct_pairs]; simplify_option_eq);
      simplify_eq/=; split; try constructor; simpl; done.
  - unfold worker_step in Hstep. simpl in *.
    destruct (ws !! i) as [w|] eqn:Hl; simpl in Hstep; [|done].
    pose proof (Forall_lookup_1 _ _ _ _ fe_workers0 Hl) as Hw.
    destruct w; simpl in *;
      repeat (first [case_match | destruct_pairs]; simplify_option_eq);
      simplify_eq/=; split; try constructor; simpl; try done;
      by apply Forall_insert.
  - unfold consumer_step in Hstep. simpl in *.
    destruct cpc; simpl in *;
      repeat (first [case_match | destruct_pairs]; simplify_option_eq);
      simplify_eq/=; split; try constructor; simpl; done.
Qed.

Lemma forever_init : forever_inv (init self).
Proof. constructor; simpl; try done. by apply Forall_replicate. Qed.

End forever.

(** X20. With [loop_forever] enabled, a run in which no stage raises never
    reaches the shutdown protocol: no flag is set, no sentinel is pushed
    and the consumer never leaves its loop. *)
Theorem loop_forever_never_stops {A : Type} (rng : nat -> nat -> list nat)
    (self : t A) (sched : list actor) (tr : list (state A * event A))
    (s : state A) :
  loop_forever self = true ->
  run rng self sched (init self) = Some (tr, s) ->
  fault_free tr ->
  stop s = false /\ stop_on_empty s = false
  /\ consumer_looping (consumer s) = true
  /\ Forall (fun ev => is_shutdown ev = false) (events tr).
Proof.
  intros Hlf Hrun Hff.
  assert (forever_inv s /\ Forall (fun ev => is_shutdown ev = false) (events tr))
    as [[] Hev]; [|done].
  revert sched tr s Hrun Hff.
  apply (run_ind rng self (init self)
           (fun tr s => fault_free tr ->
              forever_inv s
              /\ Forall (fun ev => is_shutdown ev = false) (events tr))).
  - intros _. split; [apply forever_init | constructor].
  - intros tr s a ev s' IH Hstep Hff.
    apply fault_free_snoc in Hff as [Hff Hnf].
    destruct (IH Hff) as [Hinv Hev].
    destruct (forever_step rng self Hlf _ _ _ _ Hinv Hstep Hnf) as [Hinv' Hs].
    split; [done|]. unfold events. rewrite fmap_app.
    apply Forall_app. split; [done|]. by constructor.
Qed.

Section capacity.
Context {A : Type}.
Variable rng : nat -> nat -> list nat.
Variable self : t A.
Hypothesis workers_pos : 0 < nb_workers self.

Lemma q_put_bound {X} (x : X) (q q' : JQueue X) :
  q_put (nb_workers self) x q = Some q' ->
  length (q_items q') <= nb_workers self.
Proof.
  unfold q_put. case_decide as Hc; [|done]. intros [= <-]. simpl.
  rewrite length_app. simpl. lia.
Qed.

Lemma q_get_bound {X} (x : X) (q q' : JQueue X) (n : nat) :
  q_get q = Some (x, q') -> length (q_items q) <= n ->
  length (q_items q') <= n.
Proof.
  unfold q_get. destruct (q_items q) eqn:E; [done|]. intros [= <- <-].
  simpl. lia.
Qed.

Lemma q_task_done_items {X} (q q' : JQueue X) :
  q_task_done q = Ok q' -> q_items q' = q_items q.
Proof.
  unfold q_task_done. destruct (q_unfinished q); [done|]. by intros [= <-].
Qed.

Lemma capacity_step (s s' : state A) (a : actor) (ev : event A) :
  within_capacity self s ->
  step rng self s a = Some (ev, s') ->
  within_capacity self s'.
Proof.
  intros [Hl Hp] Hstep. destruct s as [st dr lq pq lpc ws cpc].
  unfold within_capacity in *. simpl in *.
  destruct a as [|i|]; simpl in Hstep.
  - unfold loader_step in Hstep. simpl in *.
    destruct lpc; simpl in *;
      repeat (first [case_match | destruct_pairs]; simplify_option_eq);
      simplify_eq/=; eauto using q_put_bound.
  - unfold worker_step in Hstep. simpl in *.
    destruct (ws !! i) as [w|] eqn:Hw; simpl in Hstep; [|done].
    destruct w; simpl in *;
      repeat (first [case_match | destruct_pairs]; simplify_option_eq);
      simplify_eq/=;
      repeat match goal with
             | H : q_task_done _ = Ok _ |- _ =>
                 apply q_task_done_items in H; rewrite ?H
             end;
      eauto using q_put_bound, q_get_bound.
  - unfold consumer_step in Hstep. simpl in *.
    destruct cpc; simpl in *;
      repeat (first [case_match | destruct_pairs]; simplify_option_eq);
      simplify_eq/=;
      repeat match goal with
             | H : q_task_done _ = Ok _ |- _ =>
                 apply q_task_done_items in H; rewrite ?H
             end;
      eauto using q_put_bound, q_get_bound.
Qed.
End capacity.

(** X21. Backpressure: along every run, a queue never holds more items than
    there are workers. *)
Theorem queues_within_capacity {A : Type} (rng : nat -> nat -> list nat)
    (self : t A) (sched : list actor) (tr : list (state A * event A))
    (s : state A) :
  0 < nb_workers self ->
  run rng self sched (init self) = Some (tr, s) ->
  within_capacity self s
  /\ Forall (fun se => within_capacity self (fst se)) tr.
Proof.
  intros Hw. revert sched tr s.
  apply (run_ind rng self (init self)
           (fun tr s => within_capacity self s
                        /\ Forall (fun se => within_capacity self (fst se)) tr)).
  - split; [|constructor]. unfold within_capacity. simpl. lia.
  - intros tr s a ev s' [Hs Htr] Hstep. split.
    + by eapply capacity_step.
    + apply Forall_app. split; [done|]. by constructor.
Qed.



(** ** One worker: the stream *)

Lemma first_indices_in {A : Type} (rng : nat -> nat -> list nat) (self : t A)
    (L : nat) :
  (shuffle self = true -> rng 0 L ≡ₚ seq 0 L) ->
  length (first_indices rng self L) = L
  /\ Forall (fun i => i < L) (first_indices rng self L).
Proof.
  intros Hperm. unfold first_indices. destruct (shuffle self).
  - rewrite (Hperm eq_refl). split; [apply length_seq|].
    apply Forall_seq. lia.
  - split; [apply length_seq|]. apply Forall_seq. lia.
Qed.


(** X19. One worker, one epoch: under the sequential schedule the pipeline
    runs to its end (every stage returned, both queues empty) and the
    caller has received every batch of the epoch, in order. *)
Theorem one_worker_stream_completes {A : Type} (rng : nat -> nat -> list nat)
    (d : list (list A)) (bs : nat) (shuf : bool) (self : t A) (L : nat) :
  __init__ d bs 1 shuf false = Ok self ->
  __len__ self = Ok L ->
  (shuf = true -> rng 0 L ≡ₚ seq 0 L) ->
  exists batches tr,
    epoch_batches self (first_indices rng self L) = Ok batches
    /\ run rng self (sequential_schedule (num_batches self)) (init self)
       = Some (tr, finished)
    /\ yields tr = Some <$> batches.
Proof.
  intros Hinit HL Hperm.
  destruct (flow_init_fields d bs 1 shuf false self Hinit)
    as (d0 & rest & Hd & Hall & Hbs & Hdata & Hbsz & Hnw & Hshuf & Hlf & Hnb
        & HL').
  rewrite HL in HL'. injection HL' as ->.
  rewrite <- Hshuf in Hperm.
  destruct (first_indices_in rng self (length d0) Hperm) as [Hlen Hin].
  destruct (epoch_batches_ok self (length d0) (first_indices rng self (length d0)))
    as [batches Hb]; [by rewrite Hdata | done |].
  destruct (sequential_run rng self (length d0) batches Hlf Hnw HL Hb)
    as (tr & Hrun & Hy).
  eauto.
Qed.

(** ** Instances *)

Lemma epoch_batches_shape_witness :
  exists self,
    __init__ [seq 100 10; seq 200 10] 4 1 false false = Ok self
    /\ exists batches,
         epoch_batches self (seq 0 10) = Ok batches
         /\ length batches = (10 + 4 - 1) / 4
         /\ forall b batch, batches !! b = Some batch ->
              length batch = length [seq 100 10; seq 200 10]
              /\ Forall (fun col =>
                           length col
                           = if decide (S b < length batches) then 4
                             else if decide (10 mod 4 = 0) then 4
                                  else 10 mod 4)
                   batch.
Proof.
  eexists; split; [reflexivity|].
  apply (epoch_batches_shape [seq 100 10; seq 200 10] 4 1 false false _
           eq_refl 10 (seq 0 10)).
  - reflexivity.
  - reflexivity.
  - repeat constructor.
Defined.

Lemma epoch_batches_cover_witness :
  exists self batches,
    __init__ [seq 100 10; seq 200 10] 4 1 false false = Ok self
    /\ epoch_batches self (seq 0 10) = Ok batches
    /\ Forall2 (fun i x => seq 200 10 !! i = Some x) (seq 0 10)
         (concat (omap (fun batch : Batch => batch !! 1) batches))
    /\ (seq 0 10 = seq 0 10 ->
        concat (omap (fun batch : Batch => batch !! 1) batches) = seq 200 10).
Proof.
  eexists _, _; split; [reflexivity|]. split; [vm_compute; reflexivity|].
  apply (epoch_batches_cover [seq 100 10; seq 200 10] 4 1 false false _
           eq_refl 10 (seq 0 10) _ 1 (seq 200 10)).
  - reflexivity.
  - reflexivity.
  - vm_compute. reflexivity.
  - reflexivity.
Defined.


Lemma one_worker_stream_completes_witness :
  exists self batches tr,
    __init__ [seq 100 10] 4 1 true false = Ok self
    /\ epoch_batches self (first_indices Fixtures.flow_rng self 10) = Ok batches
    /\ run Fixtures.flow_rng self (sequential_schedule (num_batches self))
         (init self) = Some (tr, finished)
    /\ yields tr = Some <$> batches.
Proof.
  eexists.
  destruct (one_worker_stream_completes Fixtures.flow_rng [seq 100 10] 4 true
              _ 10 eq_refl eq_refl) as (batches & tr & Hb & Hrun & Hy).
  - intros _. symmetry. apply Permutation_rev.
  - exists batches, tr. split; [reflexivity|]. by repeat split.
Defined.

Lemma loop_forever_never_stops_witness :
  __init__ [seq 100 10] 4 1 false true = Ok Fixtures.pipe_forever
  /\ exists tr s,
    run Fixtures.flow_rng Fixtures.pipe_forever Fixtures.forever_sched (init Fixtures.pipe_forever)
    = Some (tr, s)
    /\ stop s = false /\ stop_on_empty s = false
    /\ consumer_looping (consumer s) = true
    /\ Forall (fun ev => is_shutdown ev = false) (events tr).
Proof.
  split; [reflexivity|].
  eexists _, _. split; [vm_compute; reflexivity|].
  apply (loop_forever_never_stops Fixtures.flow_rng Fixtures.pipe_forever Fixtures.forever_sched).
  - reflexivity.
  - vm_compute. reflexivity.
  - unfold fault_free. repeat constructor.
Defined.

Lemma queues_within_capacity_witness :
  exists tr s,
    run Fixtures.flow_rng Fixtures.pipe_two_workers Fixtures.sched_two_workers
      (init Fixtures.pipe_two_workers) = Some (tr, s)
    /\ within_capacity Fixtures.pipe_two_workers s
    /\ Forall (fun se => within_capacity Fixtures.pipe_two_workers (fst se)) tr.
Proof.
  eexists _, _. split; [vm_compute; reflexivity|].
  eapply (queues_within_capacity Fixtures.flow_rng Fixtures.pipe_two_workers
            Fixtures.sched_two_workers).
  - simpl. lia.
  - vm_compute. reflexivity.
Defined.


End data_flow_facts.
